(** * binance-bot: order strategies over a remote exchange gateway

    A shallow embedding of the Python sources
      src/validation.py, src/market_orders.py, src/limit_orders.py,
      src/advanced/twap.py, src/advanced/oco.py,
      src/advanced/stop_limit.py, src/advanced/grid_strategy.py
    together with the part of Python's [decimal] module they rely on.

    Layout: the decimal arithmetic, Python values and exceptions, the
    gateway (the python-binance client seen as an oracle with a call
    trace), the validators, the strategies, and then the theorems. *)

From Stdlib Require Import ZArith String Ascii List Bool Lia.
From stdpp Require Import base option gmap strings list.

Local Open Scope string_scope.
Local Open Scope Z_scope.

(** ** Exceptions and results *)

(** The exceptions that reach the modelled code.  [GatewayError] stands for
    whatever a client method raises (API and transport errors alike); the
    sources only ever catch [Exception]. *)
Inductive pyexc : Type :=
  | ValueError (msg : string)
  | InvalidOperation        (* decimal.InvalidOperation *)
  | DivisionByZero          (* decimal.DivisionByZero *)
  | TypeError
  | GatewayError (what : string).

Inductive res (A : Type) : Type :=
  | Ok (a : A)
  | Raise (e : pyexc).
Arguments Ok {A} a.
Arguments Raise {A} e.

Definition res_bind {A B} (r : res A) (k : A -> res B) : res B :=
  match r with
  | Ok a => k a
  | Raise e => Raise e
  end.

Declare Scope res_scope.
Delimit Scope res_scope with res.
Notation "'let!' x ':=' r 'in' k" :=
  (res_bind r (fun x => k))
  (at level 10, x pattern, r at level 100, k at level 200) : res_scope.

(** ** Python's decimal module *)

Module Decimal.

(** A finite [Decimal]: sign, coefficient and exponent, the triple that
    [_dec_from_triple] builds; its value is [(-1)^sign * int * 10^exp].
    The coefficient is kept as a number; its digit string is [int_str]. *)
Record dec : Type := mkDec { dsign : bool; dint : Z; dexp : Z }.

(** A [Decimal] as the constructor can return it. *)
Inductive decimal : Type :=
  | DFin (d : dec)
  | DInf (sign : bool)
  | DNaN.

Inductive rounding : Type := ROUND_DOWN | ROUND_HALF_EVEN.

Definition digit_char (d : Z) : ascii :=
  ascii_of_nat (48 + Z.to_nat d).

Fixpoint int_str_aux (fuel : nat) (n : Z) (acc : string) : string :=
  match fuel with
  | O => acc
  | S fuel' =>
      let acc' := String (digit_char (n mod 10)) acc in
      if n <? 10 then acc' else int_str_aux fuel' (n / 10) acc'
  end.

(** [str(n)] for a natural number [n]. *)
Definition int_str (n : Z) : string :=
  int_str_aux (S (Z.to_nat (Z.log2 n))) n "".

(** [len(self._int)] *)
Definition ndigits (n : Z) : Z := Z.of_nat (String.length (int_str n)).

(** [self.adjusted()]: the exponent of the most significant digit. *)
Definition adjusted (d : dec) : Z := dexp d + ndigits (dint d) - 1.

Definition is_zero (d : dec) : bool := dint d =? 0.

(** Keep all but the last [k] digits of [n], rounding as [rnd] asks. *)
Definition round_digits (rnd : rounding) (n k : Z) : Z :=
  let p := 10 ^ k in
  let q := n / p in
  let r := n mod p in
  match rnd with
  | ROUND_DOWN => q
  | ROUND_HALF_EVEN =>
      if 2 * r <? p then q
      else if p <? 2 * r then q + 1
      else if Z.even q then q else q + 1
  end.

(** [Decimal._fix]: round to the context precision.  The exponent limits
    of the context (Emax = 999999, Emin = -999999) are not modelled. *)
Definition fix_ (prec : Z) (rnd : rounding) (d : dec) : dec :=
  if is_zero d then d
  else
    let n := ndigits (dint d) in
    if n <=? prec then d
    else
      let k := n - prec in
      let c := round_digits rnd (dint d) k in
      if prec <? ndigits c
      then mkDec (dsign d) (c / 10) (dexp d + k + 1)
      else mkDec (dsign d) c (dexp d + k).

(** [Decimal._rescale]: the same value at exponent [e], rounded when
    digits have to go. *)
Definition rescale (rnd : rounding) (d : dec) (e : Z) : dec :=
  if is_zero d then mkDec (dsign d) 0 e
  else if e <=? dexp d then mkDec (dsign d) (dint d * 10 ^ (dexp d - e)) e
  else mkDec (dsign d) (round_digits rnd (dint d) (e - dexp d)) e.

(** The coefficient with its sign, at exponent [e <= dexp d]. *)
Definition signed_at (d : dec) (e : Z) : Z :=
  (if dsign d then -1 else 1) * (dint d * 10 ^ (dexp d - e)).

Definition of_int (n : Z) : dec := mkDec (n <? 0) (Z.abs n) 0.

Definition neg (d : dec) : dec := mkDec (negb (dsign d)) (dint d) (dexp d).

(** [Decimal.__add__]: the exact sum at the smaller exponent, then [_fix].
    A zero sum is negative only when both operands are. *)
Definition add (prec : Z) (a b : dec) : dec :=
  let e := Z.min (dexp a) (dexp b) in
  let s := signed_at a e + signed_at b e in
  let sign := if s =? 0 then dsign a && dsign b else s <? 0 in
  fix_ prec ROUND_HALF_EVEN (mkDec sign (Z.abs s) e).

(** [Decimal.__sub__] is [self + other.copy_negate()]. *)
Definition sub (prec : Z) (a b : dec) : dec := add prec a (neg b).

(** [Decimal.__mul__] *)
Definition mul (prec : Z) (a b : dec) : dec :=
  fix_ prec ROUND_HALF_EVEN
    (mkDec (xorb (dsign a) (dsign b)) (dint a * dint b) (dexp a + dexp b)).

(** Strip trailing zeros of an exact quotient while the exponent is below
    the ideal one ([while exp < ideal_exp and coeff % 10 == 0]). *)
Fixpoint strip_to_ideal (fuel : nat) (coeff e ideal : Z) : Z * Z :=
  match fuel with
  | O => (coeff, e)
  | S fuel' =>
      if (e <? ideal) && (coeff mod 10 =? 0)
      then strip_to_ideal fuel' (coeff / 10) (e + 1) ideal
      else (coeff, e)
  end.

(** [Decimal.__truediv__] on finite operands. *)
Definition div (prec : Z) (a b : dec) : res dec :=
  let sign := xorb (dsign a) (dsign b) in
  if is_zero b then
    if is_zero a then Raise InvalidOperation else Raise DivisionByZero
  else if is_zero a then
    Ok (fix_ prec ROUND_HALF_EVEN (mkDec sign 0 (dexp a - dexp b)))
  else
    let shift := ndigits (dint b) - ndigits (dint a) + prec + 1 in
    let e := dexp a - dexp b - shift in
    let num := if 0 <=? shift then dint a * 10 ^ shift else dint a in
    let den := if 0 <=? shift then dint b else dint b * 10 ^ (- shift) in
    let coeff := num / den in
    let remainder := num mod den in
    let '(coeff', e') :=
      if remainder =? 0
      then strip_to_ideal (Z.to_nat (ndigits coeff)) coeff e (dexp a - dexp b)
      else (if coeff mod 5 =? 0 then coeff + 1 else coeff, e) in
    Ok (fix_ prec ROUND_HALF_EVEN (mkDec sign coeff' e')).

(** [Decimal.quantize]: rescale to the exponent of [exp]; an
    [InvalidOperation] when the result would need more than [prec] digits. *)
Definition quantize (prec : Z) (rnd : rounding) (d : dec) (e : Z) : res dec :=
  if is_zero d then Ok (mkDec (dsign d) 0 e)
  else if prec <? adjusted d - e + 1 then Raise InvalidOperation
  else
    let ans := rescale rnd d e in
    if prec <? ndigits (dint ans) then Raise InvalidOperation
    else Ok (fix_ prec ROUND_HALF_EVEN ans).

(** Three-way comparison of the values ([Decimal._cmp]). *)
Definition cmp (a b : dec) : comparison :=
  let e := Z.min (dexp a) (dexp b) in
  signed_at a e ?= signed_at b e.

Definition leb (a b : dec) : bool :=
  match cmp a b with Gt => false | _ => true end.
Definition geb (a b : dec) : bool := leb b a.
Definition eqv (a b : dec) : bool :=
  match cmp a b with Eq => true | _ => false end.

(** Ordering on all decimals; a NaN operand signals [InvalidOperation]. *)
Definition cmp_ext (a b : decimal) : res comparison :=
  match a, b with
  | DNaN, _ | _, DNaN => Raise InvalidOperation
  | DFin x, DFin y => Ok (cmp x y)
  | DInf sa, DInf sb =>
      Ok (if Bool.eqb sa sb then Eq else if sa then Lt else Gt)
  | DInf sa, DFin _ => Ok (if sa then Lt else Gt)
  | DFin _, DInf sb => Ok (if sb then Gt else Lt)
  end.

Definition le_ext (a b : decimal) : res bool :=
  match cmp_ext a b with
  | Ok c => Ok (match c with Gt => false | _ => true end)
  | Raise e => Raise e
  end.
Definition ge_ext (a b : decimal) : res bool := le_ext b a.

(** The exact sum of two decimals, with no context rounding: used to
    state what a list of quantities adds up to. *)
Definition add_exact (a b : dec) : dec :=
  let e := Z.min (dexp a) (dexp b) in
  let s := signed_at a e + signed_at b e in
  mkDec (s <? 0) (Z.abs s) e.

Definition sum_exact (l : list dec) : dec :=
  fold_left add_exact l (mkDec false 0 0).

(** *** Strings: [str(d)] and [Decimal(s)] *)

Fixpoint zeros (n : nat) : string :=
  match n with
  | O => ""
  | S n' => String "0" (zeros n')
  end.

(** [Decimal.__str__] (scientific notation, [context.capitals = 1]). *)
Definition to_str (d : dec) : string :=
  let sign := if dsign d then "-" else "" in
  let int := int_str (dint d) in
  let len := ndigits (dint d) in
  let leftdigits := dexp d + len in
  let dotplace :=
    if (dexp d <=? 0) && (-6 <? leftdigits) then leftdigits else 1 in
  let intpart :=
    if dotplace <=? 0 then "0"
    else if len <=? dotplace
         then String.append int (zeros (Z.to_nat (dotplace - len)))
         else String.substring 0 (Z.to_nat dotplace) int in
  let fracpart :=
    if dotplace <=? 0
    then String.append "." (String.append (zeros (Z.to_nat (- dotplace))) int)
    else if len <=? dotplace then ""
         else String.append "."
                (String.substring (Z.to_nat dotplace)
                   (Z.to_nat (len - dotplace)) int) in
  let e := leftdigits - dotplace in
  let exp :=
    if e =? 0 then ""
    else String.append (if e <? 0 then "E-" else "E+") (int_str (Z.abs e)) in
  String.append sign (String.append intpart (String.append fracpart exp)).

Definition is_digit (c : ascii) : bool :=
  let n := nat_of_ascii c in (48 <=? n)%nat && (n <=? 57)%nat.

(** What [str.strip()] removes, among the ASCII characters. *)
Definition is_space (c : ascii) : bool :=
  let n := nat_of_ascii c in
  ((9 <=? n)%nat && (n <=? 13)%nat) || ((28 <=? n)%nat && (n <=? 32)%nat).

Fixpoint lstrip (s : string) : string :=
  match s with
  | String c s' => if is_space c then lstrip s' else s
  | EmptyString => s
  end.

Fixpoint rstrip (s : string) : string :=
  match s with
  | String c s' =>
      match rstrip s' with
      | EmptyString => if is_space c then "" else String c ""
      | r => String c r
      end
  | EmptyString => ""
  end.

Definition strip (s : string) : string := rstrip (lstrip s).

Fixpoint remove_underscores (s : string) : string :=
  match s with
  | String c s' =>
      if Ascii.eqb c "_" then remove_underscores s'
      else String c (remove_underscores s')
  | EmptyString => ""
  end.

Definition lower_char (c : ascii) : ascii :=
  let n := nat_of_ascii c in
  if (65 <=? n)%nat && (n <=? 90)%nat then ascii_of_nat (n + 32) else c.

Fixpoint lower (s : string) : string :=
  match s with
  | String c s' => String (lower_char c) (lower s')
  | EmptyString => ""
  end.

Definition upper_char (c : ascii) : ascii :=
  let n := nat_of_ascii c in
  if (97 <=? n)%nat && (n <=? 122)%nat then ascii_of_nat (n - 32) else c.

(** [str.upper()] on ASCII. *)
Fixpoint upper (s : string) : string :=
  match s with
  | String c s' => String (upper_char c) (upper s')
  | EmptyString => ""
  end.

(** The longest prefix of digits, and what follows it. *)
Fixpoint take_digits (s : string) : string * string :=
  match s with
  | String c s' =>
      if is_digit c
      then let '(ds, rest) := take_digits s' in (String c ds, rest)
      else ("", s)
  | EmptyString => ("", "")
  end.

Fixpoint digits_val_aux (s : string) (acc : Z) : Z :=
  match s with
  | String c s' => digits_val_aux s' (10 * acc + (Z.of_nat (nat_of_ascii c) - 48))
  | EmptyString => acc
  end.

(** [int(s)] for a string of digits; the empty string counts as 0. *)
Definition digits_val (s : string) : Z := digits_val_aux s 0.

Definition split_sign (s : string) : bool * string :=
  match s with
  | String c s' =>
      if Ascii.eqb c "-" then (true, s')
      else if Ascii.eqb c "+" then (false, s')
      else (false, s)
  | EmptyString => (false, s)
  end.

(** The exponent part [(E[-+]?\d+)?] followed by the end of the string. *)
Definition parse_exp (s : string) : option Z :=
  match s with
  | EmptyString => Some 0
  | String c s' =>
      if Ascii.eqb (lower_char c) "e" then
        let '(neg_e, s'') := split_sign s' in
        let '(ds, rest) := take_digits s'' in
        match ds, rest with
        | String _ _, EmptyString =>
            Some (if neg_e then - digits_val ds else digits_val ds)
        | _, _ => None
        end
      else None
  end.

(** The numeric alternative of the parser's pattern: digits with an
    optional fraction (at least one digit in all) and an optional exponent.
    Returns the coefficient and the exponent. *)
Definition parse_number (s : string) : option (Z * Z) :=
  let '(intpart, r1) := take_digits s in
  let '(fracpart, r2) :=
    match r1 with
    | String c r =>
        if Ascii.eqb c "." then take_digits r else ("", r1)
    | EmptyString => ("", r1)
    end in
  match String.append intpart fracpart with
  | EmptyString => None
  | digits =>
      match parse_exp r2 with
      | Some e =>
          Some (digits_val digits, e - Z.of_nat (String.length fracpart))
      | None => None
      end
  end.

(** The other alternatives: [Inf(inity)?] and [s?NaN\d*]. *)
Definition parse_special (sign : bool) (s : string) : option decimal :=
  let l := lower s in
  if String.eqb l "inf" || String.eqb l "infinity" then Some (DInf sign)
  else
    let after_s :=
      match l with
      | String c r => if Ascii.eqb c "s" then r else l
      | EmptyString => l
      end in
    if String.eqb (String.substring 0 3 after_s) "nan" then
      match take_digits (String.substring 3 (String.length after_s) after_s) with
      | (_, EmptyString) => Some DNaN
      | _ => None
      end
    else None.

(** [Decimal(value)] for a [str]: strip, drop underscores, match the
    pattern; the conversion is exact.  No match raises [InvalidOperation].
    Characters are ASCII (Python also takes other Unicode digits). *)
Definition of_string (value : string) : res decimal :=
  let '(sign, body) := split_sign (remove_underscores (strip value)) in
  match parse_number body with
  | Some (coeff, e) => Ok (DFin (mkDec sign coeff e))
  | None =>
      match parse_special sign body with
      | Some d => Ok d
      | None => Raise InvalidOperation
      end
  end.

End Decimal.

Import Decimal.

(** ** Python values and the gateway *)

(** What a decoded JSON response holds.  python-binance hands prices,
    quantities and statuses over as strings and order ids as integers;
    a float inside a response is not modelled. *)
#[warnings="-register-all"]
Inductive pyval : Type :=
  | PNone
  | PBool (b : bool)
  | PInt (n : Z)
  | PStr (s : string)
  | PDict (d : gmap string pyval).

Abbreviation dict := (gmap string pyval).

(** A dict literal. *)
Definition mkdict (items : list (string * pyval)) : dict := list_to_map items.

(** [d.get(key)] *)
Definition dict_get (d : dict) (key : string) : pyval :=
  default PNone (d !! key).

(** [v == s] for a string literal [s]. *)
Definition is_str (v : pyval) (s : string) : bool :=
  match v with
  | PStr t => String.eqb t s
  | _ => false
  end.

(** A keyword argument of a client call; [AFloat d] is [float(d)]. *)
Inductive arg : Type :=
  | AStr (s : string)
  | AFloat (d : dec)
  | ABool (b : bool).

Abbreviation kwargs := (gmap string arg).

Definition mkkwargs (items : list (string * arg)) : kwargs := list_to_map items.

(** The client methods the strategies call. *)
Inductive call : Type :=
  | futures_create_order (kw : kwargs)
  | futures_get_order (symbol : string) (orderId : pyval)
  | futures_cancel_order (symbol : string) (orderId : pyval)
  | futures_symbol_ticker (symbol : string).

(** The exchange as the program meets it: given the calls made so far and
    the call being made, a response or an exception. *)
Definition client : Type := list call -> call -> res dict.

(** Computations that call the gateway: the trace of calls is threaded
    through, and kept when an exception is raised. *)
Definition M (A : Type) : Type := list call -> res A * list call.

Definition ret {A} (a : A) : M A := fun tr => (Ok a, tr).

Definition raise {A} (e : pyexc) : M A := fun tr => (Raise e, tr).

Definition lift {A} (r : res A) : M A := fun tr => (r, tr).

Definition bind {A B} (m : M A) (k : A -> M B) : M B :=
  fun tr =>
    match m tr with
    | (Ok a, tr') => k a tr'
    | (Raise e, tr') => (Raise e, tr')
    end.

Declare Scope py_scope.
Delimit Scope py_scope with py.
Notation "x <- m ;; k" := (bind m (fun x => k))
  (at level 100, m at next level, right associativity) : py_scope.
Notation "m ;;; k" := (bind m (fun _ => k))
  (at level 100, right associativity) : py_scope.
Local Open Scope py_scope.

(** [try: m except Exception: handler] *)
Definition try_except {A} (m : M A) (handler : pyexc -> M A) : M A :=
  fun tr =>
    match m tr with
    | (Ok a, tr') => (Ok a, tr')
    | (Raise e, tr') => handler e tr'
    end.

(** One call of a client method. *)
Definition invoke (c : client) (k : call) : M dict :=
  fun tr => (c tr k, (tr ++ [k])%list).

(** [time.sleep(seconds)] with a non-negative argument: nothing the
    results depend on. *)
Definition time_sleep : M unit := ret tt.

(** [for i in idx: st = body(i, st)] *)
Fixpoint for_in {A} (idx : list Z) (body : Z -> A -> M A) (st : A) : M A :=
  match idx with
  | [] => ret st
  | i :: rest => st' <- body i st ;; for_in rest body st'
  end.

(** [range(n)] *)
Definition range (n : Z) : list Z := seqZ 0 n.

(** The gateway that is really used: none under [dry_run or client is None]. *)
Definition live (cl : option client) (dry_run : bool) : option client :=
  if dry_run then None else cl.

(** The result of a watcher after a bounded number of polls. *)
Inductive watch (A : Type) : Type :=
  | Returned (a : A)
  | Watching.
Arguments Returned {A} a.
Arguments Watching {A}.

(** ** src/validation.py *)


Definition validate_side (side : string) : res string :=
  let s := upper side in
  if String.eqb s "BUY" || String.eqb s "SELL" then Ok s
  else Raise (ValueError "Side must be BUY or SELL").

(** The two validators differ in their messages only. *)
Definition validate_positive (what : string) (text : string) : res decimal :=
  match of_string text with
  | Raise InvalidOperation =>
      Raise (ValueError (String.append what " must be a decimal number"))
  | Raise e => Raise e
  | Ok d =>
      match le_ext d (DFin (of_int 0)) with
      | Raise e => Raise e
      | Ok true => Raise (ValueError (String.append what " must be > 0"))
      | Ok false => Ok d
      end
  end.

Definition validate_quantity (qty : string) : res decimal :=
  validate_positive "Quantity" qty.

Definition validate_price (price : string) : res decimal :=
  validate_positive "Price" price.




(** ** The strategies *)

(** [create_client], the same in every module: no client unless both
    credentials are set and non-empty.  [connect] stands for the
    python-binance [Client] constructor. *)
Definition create_client (connect : string -> string -> client)
    (API_KEY API_SECRET : option string) : option client :=
  match API_KEY, API_SECRET with
  | Some key, Some secret =>
      if String.eqb key "" || String.eqb secret "" then None
      else Some (connect key secret)
  | _, _ => None
  end.

(** *** src/market_orders.py *)

Definition place_market_order (cl : option client) (symbol side : string)
    (qty : dec) (dry_run : bool) : M dict :=
  match live cl dry_run with
  | None =>
      ret (mkdict [("status", PStr "DRY_RUN"); ("symbol", PStr symbol);
                   ("side", PStr side); ("qty", PStr (to_str qty))])
  | Some c =>
      invoke c (futures_create_order
        (mkkwargs [("symbol", AStr symbol); ("side", AStr side);
                   ("type", AStr "MARKET"); ("quantity", AFloat qty)]))
  end.

(** *** src/limit_orders.py *)

Definition place_limit_order (cl : option client) (symbol side : string)
    (qty price : dec) (time_in_force : string) (dry_run : bool) : M dict :=
  match live cl dry_run with
  | None =>
      ret (mkdict [("status", PStr "DRY_RUN"); ("symbol", PStr symbol);
                   ("side", PStr side); ("qty", PStr (to_str qty));
                   ("price", PStr (to_str price))])
  | Some c =>
      invoke c (futures_create_order
        (mkkwargs [("symbol", AStr symbol); ("side", AStr side);
                   ("type", AStr "LIMIT"); ("timeInForce", AStr time_in_force);
                   ("quantity", AFloat qty); ("price", AStr (to_str price))]))
  end.

(** *** src/advanced/twap.py *)

(** The module sets [getcontext().prec = 12]. *)
Definition twap_prec : Z := 12.

(** [qty_per]: the share of one chunk, cut to 8 decimals. *)
Definition twap_qty_per (total_qty : dec) (chunks : Z) : res dec :=
  (let! q := div twap_prec total_qty (of_int chunks) in
   quantize twap_prec ROUND_DOWN q (-8))%res.

Definition twap_remainder (total_qty qty_per : dec) (chunks : Z) : dec :=
  sub twap_prec total_qty (mul twap_prec qty_per (of_int chunks)).

(** [execute_qty] of chunk [i] (counted from 0). *)
Definition twap_execute_qty (qty_per remainder : dec) (chunks i : Z) : dec :=
  add twap_prec qty_per
    (if i =? chunks - 1 then remainder else mkDec false 0 0).

Definition twap_order (symbol side : string) (execute_qty : dec) : call :=
  futures_create_order
    (mkkwargs [("symbol", AStr symbol); ("side", AStr side);
               ("type", AStr "MARKET"); ("quantity", AFloat execute_qty)]).

Definition twap_dry_record (i : Z) (execute_qty : dec) : dict :=
  mkdict [("chunk", PInt (i + 1)); ("status", PStr "DRY_RUN");
          ("qty", PStr (to_str execute_qty))].

Definition twap_error_record (i : Z) : dict :=
  mkdict [("chunk", PInt (i + 1)); ("status", PStr "ERROR")].

(** The body of the loop over the chunks. *)
Definition twap_chunk (cl : option client) (symbol side : string)
    (qty_per remainder : dec) (chunks : Z) (dry_run : bool)
    (i : Z) (results : list dict) : M (list dict) :=
  let execute_qty := twap_execute_qty qty_per remainder chunks i in
  results' <-
    match live cl dry_run with
    | None => ret (results ++ [twap_dry_record i execute_qty])%list
    | Some c =>
        try_except
          (res <- invoke c (twap_order symbol side execute_qty) ;;
           ret (results ++ [res])%list)
          (fun _ => ret (results ++ [twap_error_record i])%list)
    end ;;
  (if i <? chunks - 1 then time_sleep else ret tt) ;;;
  ret results'.

(** [duration_s] is not negative (so that [time.sleep] takes it). *)
Definition run_twap (cl : option client) (symbol side : string)
    (total_qty : dec) (chunks : Z) (duration_s : N) (dry_run : bool)
  : M (list dict) :=
  qty_per <- lift (twap_qty_per total_qty chunks) ;;
  let remainder := twap_remainder total_qty qty_per chunks in
  for_in (range chunks)
    (twap_chunk cl symbol side qty_per remainder chunks dry_run) [].

(** The quantities of the chunks in order, as [run_twap] computes them. *)
Definition twap_quantities (total_qty : dec) (chunks : Z) : res (list dec) :=
  (let! qty_per := twap_qty_per total_qty chunks in
   let remainder := twap_remainder total_qty qty_per chunks in
   Ok (map (twap_execute_qty qty_per remainder chunks) (range chunks)))%res.

(** *** src/advanced/grid_strategy.py *)

(** The default context: 28 digits, ROUND_HALF_EVEN. *)
Definition default_prec : Z := 28.

Definition grid_step_size (low high : dec) (steps : Z) : res dec :=
  div default_prec (sub default_prec high low) (of_int steps).

(** The price of level [i]; [Decimal("1.00")] has exponent -2. *)
Definition grid_price (low step_size : dec) (i : Z) : res dec :=
  quantize default_prec ROUND_HALF_EVEN
    (add default_prec low (mul default_prec step_size (of_int i))) (-2).

Definition grid_order (symbol : string) (qty_per_order price : dec) : call :=
  futures_create_order
    (mkkwargs [("symbol", AStr symbol); ("side", AStr "BUY");
               ("type", AStr "LIMIT"); ("timeInForce", AStr "GTC");
               ("quantity", AFloat qty_per_order);
               ("price", AStr (to_str price))]).

Definition grid_dry_record (qty_per_order price : dec) : dict :=
  mkdict [("price", PStr (to_str price)); ("qty", PStr (to_str qty_per_order));
          ("status", PStr "DRY_RUN")].

Definition grid_level (cl : option client) (symbol : string)
    (low step_size qty_per_order : dec) (dry_run : bool)
    (i : Z) (orders : list dict) : M (list dict) :=
  price <- lift (grid_price low step_size i) ;;
  match live cl dry_run with
  | None => ret (orders ++ [grid_dry_record qty_per_order price])%list
  | Some c =>
      try_except
        (res <- invoke c (grid_order symbol qty_per_order price) ;;
         ret (orders ++ [res])%list)
        (fun _ => ret orders)
  end.

Definition create_grid (cl : option client) (symbol : string)
    (low high : dec) (steps : Z) (qty_per_order : dec) (dry_run : bool)
  : M (list dict) :=
  if geb low high then raise (ValueError "low must be < high")
  else
    step_size <- lift (grid_step_size low high steps) ;;
    for_in (range (steps + 1))
      (grid_level cl symbol low step_size qty_per_order dry_run) [].

(** *** src/advanced/oco.py *)

Inductive leg : Type := TP | SL.

Definition oco_tp_order (symbol side : string) (qty tp_price : dec) : call :=
  futures_create_order
    (mkkwargs [("symbol", AStr symbol); ("side", AStr side);
               ("type", AStr "LIMIT"); ("timeInForce", AStr "GTC");
               ("quantity", AFloat qty); ("price", AStr (to_str tp_price))]).

Definition oco_sl_order (symbol side : string) (qty sl_price : dec) : call :=
  futures_create_order
    (mkkwargs [("symbol", AStr symbol);
               ("side", AStr (if String.eqb side "BUY" then "SELL" else "BUY"));
               ("type", AStr "STOP_MARKET");
               ("stopPrice", AStr (to_str sl_price));
               ("closePosition", ABool false); ("quantity", AFloat qty)]).

(** One turn of the watcher's loop: the leg whose fill ended the watch,
    or nothing when the loop goes on (also after an exception). *)
Definition watcher_poll (c : client) (symbol : string)
    (tp_order sl_order : dict) : M (option leg) :=
  try_except
    (tp_status <- invoke c
       (futures_get_order symbol (dict_get tp_order "orderId")) ;;
     sl_status <- invoke c
       (futures_get_order symbol (dict_get sl_order "orderId")) ;;
     if is_str (dict_get tp_status "status") "FILLED" then
       invoke c (futures_cancel_order symbol (dict_get sl_order "orderId")) ;;;
       ret (Some TP)
     else if is_str (dict_get sl_status "status") "FILLED" then
       invoke c (futures_cancel_order symbol (dict_get tp_order "orderId")) ;;;
       ret (Some SL)
     else ret None)
    (fun _ => ret None).

(** The watcher thread, run for at most [polls] turns of its loop. *)
Fixpoint watcher (c : client) (symbol : string) (tp_order sl_order : dict)
    (polls : nat) : M (watch leg) :=
  match polls with
  | O => ret Watching
  | S polls' =>
      r <- watcher_poll c symbol tp_order sl_order ;;
      match r with
      | Some l => ret (Returned l)
      | None => time_sleep ;;; watcher c symbol tp_order sl_order polls'
      end
  end.

(** [place_oco] returns its result and, when it started the watcher thread,
    the two orders the thread watches. *)
Definition place_oco (cl : option client) (symbol side : string)
    (qty tp_price sl_price : dec) (dry_run : bool)
  : M (dict * option (dict * dict)) :=
  match live cl dry_run with
  | None => ret (mkdict [("status", PStr "DRY_RUN")], None)
  | Some c =>
      tp_order <- invoke c (oco_tp_order symbol side qty tp_price) ;;
      sl_order <- invoke c (oco_sl_order symbol side qty sl_price) ;;
      ret (mkdict [("tp", PDict tp_order); ("sl", PDict sl_order)],
           Some (tp_order, sl_order))
  end.

(** *** src/advanced/stop_limit.py *)

(** [Decimal(v)] *)
Definition decimal_of (v : pyval) : res decimal :=
  match v with
  | PStr s => of_string s
  | PInt n => Ok (DFin (of_int n))
  | PBool b => Ok (DFin (of_int (if b then 1 else 0)))
  | PNone | PDict _ => Raise TypeError
  end.

(** [(side == "BUY" and price >= stop_price) or
     (side == "SELL" and price <= stop_price)] *)
Definition stop_hit (side : string) (price : decimal) (stop_price : dec)
  : res bool :=
  (let! buy := if String.eqb side "BUY" then ge_ext price (DFin stop_price)
               else Ok false in
   if buy then Ok true
   else if String.eqb side "SELL" then le_ext price (DFin stop_price)
   else Ok false)%res.

Definition stop_limit_order (symbol side : string) (qty limit_price : dec)
  : call :=
  futures_create_order
    (mkkwargs [("symbol", AStr symbol); ("side", AStr side);
               ("type", AStr "LIMIT"); ("timeInForce", AStr "GTC");
               ("quantity", AFloat qty); ("price", AStr (to_str limit_price))]).

(** One turn of the loop: the order when it was placed, nothing when the
    loop goes on (also after an exception). *)
Definition stop_limit_poll (c : client) (symbol side : string)
    (qty stop_price limit_price : dec) : M (option dict) :=
  try_except
    (ticker <- invoke c (futures_symbol_ticker symbol) ;;
     price <- lift (decimal_of (dict_get ticker "price")) ;;
     hit <- lift (stop_hit side price stop_price) ;;
     if hit : bool then
       order <- invoke c (stop_limit_order symbol side qty limit_price) ;;
       ret (Some order)
     else ret None)
    (fun _ => ret None).

Fixpoint stop_limit_loop (c : client) (symbol side : string)
    (qty stop_price limit_price : dec) (polls : nat) : M (watch dict) :=
  match polls with
  | O => ret Watching
  | S polls' =>
      r <- stop_limit_poll c symbol side qty stop_price limit_price ;;
      match r with
      | Some order => ret (Returned order)
      | None =>
          time_sleep ;;;
          stop_limit_loop c symbol side qty stop_price limit_price polls'
      end
  end.

(** [poll_interval] is not negative; the live loop is run for at most
    [polls] turns. *)
Definition stop_limit_watch_and_place (cl : option client)
    (symbol side : string) (qty stop_price limit_price : dec)
    (dry_run : bool) (poll_interval : N) (polls : nat) : M (watch dict) :=
  match live cl dry_run with
  | None =>
      for_in (range 2) (fun _ _ => time_sleep) tt ;;;
      ret (Returned
        (mkdict [("status", PStr "DRY_RUN"); ("symbol", PStr symbol);
                 ("side", PStr side); ("qty", PStr (to_str qty));
                 ("stop", PStr (to_str stop_price));
                 ("limit", PStr (to_str limit_price))]))
  | Some c => stop_limit_loop c symbol side qty stop_price limit_price polls
  end.

(** ** src/logger_config.py *)

(** A handler as [get_logger] sets it up: where it writes, the level it
    lets through and its format string. *)
Inductive handler_kind : Type :=
  | RotatingFileHandler (filename : string) (maxBytes backupCount : Z)
  | StreamHandler_stdout.

Record handler : Type :=
  mkHandler { h_kind : handler_kind; h_level : Z; h_format : string }.

(** The state of a [logging.Logger]: its level and its handlers. *)
Record logger : Type := mkLogger { l_level : Z; l_handlers : list handler }.

(** The loggers that exist, by name: [logging.getLogger] hands out one
    logger per name. *)
Abbreviation loggers := (gmap string logger).

(** [logging.DEBUG], [logging.INFO], and the level of a new logger. *)
Definition DEBUG : Z := 10.
Definition INFO : Z := 20.
Definition NOTSET : Z := 0.

Definition LOG_FILE : string := "bot.log".

(** [logging.getLogger(name)]: the logger of that name, made on first use
    with no handler. *)
Definition getLogger (name : string) (registry : loggers) : logger * loggers :=
  match registry !! name with
  | Some l => (l, registry)
  | None => (mkLogger NOTSET [], <[name := mkLogger NOTSET []]> registry)
  end.

(** [get_logger(name)] returns the logger and the loggers as it leaves
    them.  Opening the log file is not modelled. *)
Definition get_logger (name : string) (registry : loggers) : logger * loggers :=
  let '(l, registry) := getLogger name registry in
  match l_handlers l with
  | _ :: _ => (l, registry)
  | [] =>
      let fmt := "%(asctime)s | %(levelname)s | %(name)s | %(message)s" in
      let fh := mkHandler (RotatingFileHandler LOG_FILE 5000000 3) DEBUG fmt in
      let sh := mkHandler StreamHandler_stdout INFO fmt in
      let l' := mkLogger DEBUG (l_handlers l ++ [fh; sh]) in
      (l', <[name := l']> registry)
  end.

(** ** Vocabulary of the statements *)

(** The responses the gateway gives to [calls] made one after the other,
    the trace being [tr] before the first. *)
Fixpoint responses (c : client) (calls : list call) (tr : list call)
  : list (res dict) :=
  match calls with
  | [] => []
  | k :: rest => c tr k :: responses c rest (tr ++ [k])%list
  end.

Definition ok_of (r : res dict) : option dict :=
  match r with
  | Ok d => Some d
  | Raise _ => None
  end.

(** What [run_twap] records for chunk [i] given the gateway's answer. *)
Definition twap_result (i : Z) (r : res dict) : dict :=
  match r with
  | Ok d => d
  | Raise _ => twap_error_record i
  end.

Fixpoint res_mapM {A B} (f : A -> res B) (l : list A) : res (list B) :=
  match l with
  | [] => Ok []
  | a :: rest =>
      (let! b := f a in let! bs := res_mapM f rest in Ok (b :: bs))%res
  end.

(** The prices of the levels 0..steps, when all of them can be computed. *)
Definition grid_prices (low high : dec) (steps : Z) : res (list dec) :=
  (let! step_size := grid_step_size low high steps in
   res_mapM (grid_price low step_size) (range (steps + 1)))%res.


(** Strings of decimal digits. *)
Fixpoint all_digits (s : string) : bool :=
  match s with
  | String c s' => is_digit c && all_digits s'
  | EmptyString => true
  end.


(** *** The steps of the two watchers *)

Definition get_of (symbol : string) (order : dict) : call :=
  futures_get_order symbol (dict_get order "orderId").

Definition cancel_of (symbol : string) (order : dict) : call :=
  futures_cancel_order symbol (dict_get order "orderId").

(** [status.get("status") == "FILLED"] *)
Definition filled (status : dict) : bool :=
  is_str (dict_get status "status") "FILLED".

(** What one turn of the bracket watcher's loop can be, from the trace
    [tr]: its outcome and the calls it makes. *)
Inductive watcher_step (c : client) (symbol : string) (tp_order sl_order : dict)
    (tr : list call) : option leg -> list call -> Prop :=
  | tp_query_raises e :
      c tr (get_of symbol tp_order) = Raise e ->
      watcher_step c symbol tp_order sl_order tr None [get_of symbol tp_order]
  | sl_query_raises tp_status e :
      c tr (get_of symbol tp_order) = Ok tp_status ->
      c (tr ++ [get_of symbol tp_order])%list (get_of symbol sl_order)
        = Raise e ->
      watcher_step c symbol tp_order sl_order tr None
        [get_of symbol tp_order; get_of symbol sl_order]
  | none_filled tp_status sl_status :
      c tr (get_of symbol tp_order) = Ok tp_status ->
      c (tr ++ [get_of symbol tp_order])%list (get_of symbol sl_order)
        = Ok sl_status ->
      filled tp_status = false -> filled sl_status = false ->
      watcher_step c symbol tp_order sl_order tr None
        [get_of symbol tp_order; get_of symbol sl_order]
  | leg_filled l tp_status sl_status ack :
      c tr (get_of symbol tp_order) = Ok tp_status ->
      c (tr ++ [get_of symbol tp_order])%list (get_of symbol sl_order)
        = Ok sl_status ->
      match l with
      | TP => filled tp_status = true
      | SL => filled tp_status = false /\ filled sl_status = true
      end ->
      c (tr ++ [get_of symbol tp_order; get_of symbol sl_order])%list
        (cancel_of symbol (match l with TP => sl_order | SL => tp_order end))
        = Ok ack ->
      watcher_step c symbol tp_order sl_order tr (Some l)
        [get_of symbol tp_order; get_of symbol sl_order;
         cancel_of symbol (match l with TP => sl_order | SL => tp_order end)]
  | cancel_raises l tp_status sl_status e :
      c tr (get_of symbol tp_order) = Ok tp_status ->
      c (tr ++ [get_of symbol tp_order])%list (get_of symbol sl_order)
        = Ok sl_status ->
      match l with
      | TP => filled tp_status = true
      | SL => filled tp_status = false /\ filled sl_status = true
      end ->
      c (tr ++ [get_of symbol tp_order; get_of symbol sl_order])%list
        (cancel_of symbol (match l with TP => sl_order | SL => tp_order end))
        = Raise e ->
      watcher_step c symbol tp_order sl_order tr None
        [get_of symbol tp_order; get_of symbol sl_order;
         cancel_of symbol (match l with TP => sl_order | SL => tp_order end)].

(** A run of the bracket watcher from the trace [tr]: steps that go on,
    ended by a step that returns or by the bound on the polls. *)
Inductive watcher_run (c : client) (symbol : string) (tp_order sl_order : dict)
  : list call -> watch leg -> list call -> Prop :=
  | watcher_bound tr :
      watcher_run c symbol tp_order sl_order tr Watching []
  | watcher_done tr l calls :
      watcher_step c symbol tp_order sl_order tr (Some l) calls ->
      watcher_run c symbol tp_order sl_order tr (Returned l) calls
  | watcher_more tr calls w rest :
      watcher_step c symbol tp_order sl_order tr None calls ->
      watcher_run c symbol tp_order sl_order (tr ++ calls)%list w rest ->
      watcher_run c symbol tp_order sl_order tr w (calls ++ rest)%list.

(** Why the watcher may issue the cancel [k] in a turn that starts at the
    trace [tr]: both queries of the turn were answered, and either [k]
    cancels the stop-loss leg and the take-profit leg was seen FILLED, or
    [k] cancels the take-profit leg and the stop-loss leg alone was seen
    FILLED. *)
Definition cancel_justified (c : client) (symbol : string)
    (tp_order sl_order : dict) (tr : list call) (k : call) : Prop :=
  exists tp_status sl_status,
    c tr (get_of symbol tp_order) = Ok tp_status /\
    c (tr ++ [get_of symbol tp_order])%list (get_of symbol sl_order)
      = Ok sl_status /\
    ((k = cancel_of symbol sl_order /\ filled tp_status = true) \/
     (k = cancel_of symbol tp_order /\ filled tp_status = false /\
      filled sl_status = true)).

(** What one turn of the stop-limit watcher's loop can be, from the trace
    [tr]: the order it returns, if any, and the calls it makes. *)
Inductive stop_limit_step (c : client) (symbol side : string)
    (qty stop_price limit_price : dec) (tr : list call)
  : option dict -> list call -> Prop :=
  | ticker_raises e :
      c tr (futures_symbol_ticker symbol) = Raise e ->
      stop_limit_step c symbol side qty stop_price limit_price tr None
        [futures_symbol_ticker symbol]
  | price_unreadable ticker e :
      c tr (futures_symbol_ticker symbol) = Ok ticker ->
      decimal_of (dict_get ticker "price") = Raise e ->
      stop_limit_step c symbol side qty stop_price limit_price tr None
        [futures_symbol_ticker symbol]
  | comparison_raises ticker price e :
      c tr (futures_symbol_ticker symbol) = Ok ticker ->
      decimal_of (dict_get ticker "price") = Ok price ->
      stop_hit side price stop_price = Raise e ->
      stop_limit_step c symbol side qty stop_price limit_price tr None
        [futures_symbol_ticker symbol]
  | stop_not_hit ticker price :
      c tr (futures_symbol_ticker symbol) = Ok ticker ->
      decimal_of (dict_get ticker "price") = Ok price ->
      stop_hit side price stop_price = Ok false ->
      stop_limit_step c symbol side qty stop_price limit_price tr None
        [futures_symbol_ticker symbol]
  | order_placed ticker price order :
      c tr (futures_symbol_ticker symbol) = Ok ticker ->
      decimal_of (dict_get ticker "price") = Ok price ->
      stop_hit side price stop_price = Ok true ->
      c (tr ++ [futures_symbol_ticker symbol])%list
        (stop_limit_order symbol side qty limit_price) = Ok order ->
      stop_limit_step c symbol side qty stop_price limit_price tr (Some order)
        [futures_symbol_ticker symbol;
         stop_limit_order symbol side qty limit_price]
  | placement_raises ticker price e :
      c tr (futures_symbol_ticker symbol) = Ok ticker ->
      decimal_of (dict_get ticker "price") = Ok price ->
      stop_hit side price stop_price = Ok true ->
      c (tr ++ [futures_symbol_ticker symbol])%list
        (stop_limit_order symbol side qty limit_price) = Raise e ->
      stop_limit_step c symbol side qty stop_price limit_price tr None
        [futures_symbol_ticker symbol;
         stop_limit_order symbol side qty limit_price].

Inductive stop_limit_run (c : client) (symbol side : string)
    (qty stop_price limit_price : dec)
  : list call -> watch dict -> list call -> Prop :=
  | stop_limit_bound tr :
      stop_limit_run c symbol side qty stop_price limit_price tr Watching []
  | stop_limit_done tr order calls :
      stop_limit_step c symbol side qty stop_price limit_price tr
        (Some order) calls ->
      stop_limit_run c symbol side qty stop_price limit_price tr
        (Returned order) calls
  | stop_limit_more tr calls w rest :
      stop_limit_step c symbol side qty stop_price limit_price tr None calls ->
      stop_limit_run c symbol side qty stop_price limit_price
        (tr ++ calls)%list w rest ->
      stop_limit_run c symbol side qty stop_price limit_price tr w
        (calls ++ rest)%list.

(** The calls of [j] turns of the bracket watcher in which both queries
    are answered and nothing is cancelled. *)
Fixpoint quiet_turns (symbol : string) (tp_order sl_order : dict) (j : nat)
  : list call :=
  match j with
  | O => []
  | S j' =>
      get_of symbol tp_order :: get_of symbol sl_order
        :: quiet_turns symbol tp_order sl_order j'
  end.

(** The calls of [n] turns of the bracket watcher that each end in a
    cancel of the stop-loss leg. *)
Fixpoint cancel_turns (symbol : string) (tp_order sl_order : dict) (n : nat)
  : list call :=
  match n with
  | O => []
  | S n' =>
      get_of symbol tp_order :: get_of symbol sl_order
        :: cancel_of symbol sl_order :: cancel_turns symbol tp_order sl_order n'
  end.

(** The calls of [n] turns of the stop-limit watcher that each place the
    order. *)
Fixpoint placing_turns (poll place : call) (n : nat) : list call :=
  match n with
  | O => []
  | S n' => poll :: place :: placing_turns poll place n'
  end.

(** * Theorems *)

(** ** Digits and rounding *)

Lemma int_str_aux_length (fuel : nat) : forall (n : Z) (acc : string),
  0 < n -> n < 2 ^ Z.of_nat fuel ->
  exists k : nat,
    String.length (int_str_aux fuel n acc) = (S k + String.length acc)%nat /\
    10 ^ Z.of_nat k <= n < 10 ^ (Z.of_nat k + 1).
Proof.
  induction fuel as [|fuel IH]; intros n acc Hpos Hlt.
  - simpl in Hlt. lia.
  - simpl int_str_aux. destruct (n <? 10) eqn:Hsmall.
    + apply Z.ltb_lt in Hsmall. exists O. simpl. split; [reflexivity | lia].
    + apply Z.ltb_ge in Hsmall.
      assert (Hq : 0 < n / 10) by (apply Z.div_str_pos; lia).
      assert (Hq2 : n / 10 < 2 ^ Z.of_nat fuel).
      { rewrite Nat2Z.inj_succ, Z.pow_succ_r in Hlt by lia.
        apply Z.div_lt_upper_bound; lia. }
      destruct (IH (n / 10) (String (digit_char (n mod 10)) acc) Hq Hq2)
        as (k & Hlen & Hlo & Hhi).
      exists (S k). split.
      * rewrite Hlen. simpl. lia.
      * rewrite Nat2Z.inj_succ.
        replace (Z.succ (Z.of_nat k) + 1) with (Z.succ (Z.of_nat k + 1)) by lia.
        rewrite !Z.pow_succ_r by lia.
        pose proof (Z.div_mod n 10 ltac:(lia)) as Hdm.
        pose proof (Z.mod_pos_bound n 10 ltac:(lia)) as Hm.
        split; lia.
Qed.

(** The number of digits of a positive coefficient brackets it between
    two powers of ten. *)
Lemma ndigits_spec (n : Z) :
  0 < n -> 1 <= ndigits n /\ 10 ^ (ndigits n - 1) <= n < 10 ^ ndigits n.
Proof.
  intros Hpos. unfold ndigits, int_str.
  assert (Hlt : n < 2 ^ Z.of_nat (S (Z.to_nat (Z.log2 n)))).
  { rewrite Nat2Z.inj_succ, Z2Nat.id by apply Z.log2_nonneg.
    apply Z.log2_spec. exact Hpos. }
  destruct (int_str_aux_length _ n "" Hpos Hlt) as (k & Hlen & Hlo & Hhi).
  rewrite Hlen. simpl String.length. rewrite Nat.add_0_r, Nat2Z.inj_succ.
  replace (Z.succ (Z.of_nat k) - 1) with (Z.of_nat k) by lia.
  replace (Z.succ (Z.of_nat k)) with (Z.of_nat k + 1) by lia.
  split; [lia | split; assumption].
Qed.

Lemma round_digits_lower (rnd : rounding) (n k : Z) :
  n / 10 ^ k <= round_digits rnd n k.
Proof.
  unfold round_digits. destruct rnd; [lia|].
  repeat match goal with |- context [if ?b then _ else _] => destruct b end; lia.
Qed.

(** Rounding to a positive precision never turns a number into zero. *)
Lemma fix_positive (prec : Z) (rnd : rounding) (d : dec) :
  0 < prec -> 0 < dint d -> 0 < dint (fix_ prec rnd d).
Proof.
  intros Hprec Hpos. unfold fix_, is_zero.
  destruct (dint d =? 0) eqn:Hz; [apply Z.eqb_eq in Hz; lia|].
  destruct (ndigits (dint d) <=? prec) eqn:Hfit; [exact Hpos|].
  apply Z.leb_gt in Hfit.
  destruct (ndigits_spec (dint d) Hpos) as (_ & Hlo & _).
  set (k := ndigits (dint d) - prec) in *.
  assert (Hc : 1 <= round_digits rnd (dint d) k).
  { etransitivity; [|apply round_digits_lower].
    apply Z.div_le_lower_bound; [apply Z.pow_pos_nonneg; lia|].
    rewrite Z.mul_1_r. etransitivity; [|exact Hlo].
    apply Z.pow_le_mono_r; lia. }
  destruct (prec <? ndigits (round_digits rnd (dint d) k)) eqn:Hlong; simpl.
  - apply Z.ltb_lt in Hlong.
    destruct (ndigits_spec (round_digits rnd (dint d) k) ltac:(lia))
      as (_ & Hlo' & _).
    apply Z.div_str_pos. split; [lia|].
    etransitivity; [|exact Hlo'].
    change 10 with (10 ^ 1) at 1. apply Z.pow_le_mono_r; lia.
  - lia.
Qed.

(** ** The loops *)

Section Loops.

Variables (cl : option client) (dry_run : bool).
Variables (symbol side : string).

Lemma twap_loop_dry (qty_per remainder : dec) (chunks : Z) :
  live cl dry_run = None ->
  forall (idx : list Z) (results : list dict) (tr : list call),
    for_in idx (twap_chunk cl symbol side qty_per remainder chunks dry_run)
      results tr
    = (Ok (results ++
           map (fun i => twap_dry_record i
                  (twap_execute_qty qty_per remainder chunks i)) idx)%list,
       tr).
Proof.
  intros Hdry idx. induction idx as [|i idx IH]; intros results tr; simpl.
  - unfold ret. rewrite app_nil_r. reflexivity.
  - unfold bind at 1. unfold twap_chunk at 1. rewrite Hdry.
    unfold bind, ret, time_sleep. destruct (i <? chunks - 1); simpl;
      rewrite IH, <- app_assoc; reflexivity.
Qed.

Lemma grid_loop_dry (low step_size qty_per_order : dec) :
  live cl dry_run = None ->
  forall (idx : list Z) (prices : list dec) (orders : list dict)
         (tr : list call),
    res_mapM (grid_price low step_size) idx = Ok prices ->
    for_in idx (grid_level cl symbol low step_size qty_per_order dry_run)
      orders tr
    = (Ok (orders ++ map (grid_dry_record qty_per_order) prices)%list, tr).
Proof.
  intros Hdry idx. induction idx as [|i idx IH]; intros prices orders tr; simpl.
  - intros [= <-]. unfold ret. rewrite app_nil_r. reflexivity.
  - unfold bind at 1. unfold grid_level at 1. rewrite Hdry.
    unfold bind, lift, ret.
    destruct (grid_price low step_size i) as [p|e]; simpl; [|discriminate].
    destruct (res_mapM (grid_price low step_size) idx) as [ps|e] eqn:Hps;
      simpl; [|discriminate].
    intros [= <-]. rewrite (IH ps) by reflexivity.
    simpl. rewrite <- app_assoc. reflexivity.
Qed.

(** A dry loop over the levels never reaches the gateway, whether or not
    the prices can be computed. *)
Lemma grid_loop_dry_trace (low step_size qty_per_order : dec) :
  live cl dry_run = None ->
  forall (idx : list Z) (orders : list dict) (tr : list call),
    snd (for_in idx (grid_level cl symbol low step_size qty_per_order dry_run)
           orders tr) = tr.
Proof.
  intros Hdry idx. induction idx as [|i idx IH]; intros orders tr; simpl.
  - reflexivity.
  - unfold bind at 1. unfold grid_level at 1. rewrite Hdry.
    unfold bind, lift, ret.
    destruct (grid_price low step_size i) as [p|e]; simpl; [|reflexivity].
    apply IH.
Qed.

End Loops.

Section LiveLoops.

Variables (c : client) (symbol side : string).

Lemma twap_loop_live (qty_per remainder : dec) (chunks : Z) :
  let order i :=
    twap_order symbol side (twap_execute_qty qty_per remainder chunks i) in
  forall (idx : list Z) (results : list dict) (tr : list call),
    for_in idx (twap_chunk (Some c) symbol side qty_per remainder chunks false)
      results tr
    = (Ok (results ++
           zip_with twap_result idx (responses c (map order idx) tr))%list,
       (tr ++ map order idx)%list).
Proof.
  intros order idx. induction idx as [|i idx IH]; intros results tr; simpl.
  - unfold ret. rewrite !app_nil_r. reflexivity.
  - unfold bind at 1. unfold twap_chunk at 1. simpl live.
    unfold bind, try_except, invoke, ret, time_sleep. fold (order i).
    destruct (c tr (order i)) as [d|e]; simpl;
      destruct (i <? chunks - 1); simpl;
      rewrite IH, <- !app_assoc; reflexivity.
Qed.

Lemma grid_loop_live (low step_size qty_per_order : dec) :
  forall (idx : list Z) (prices : list dec) (orders : list dict)
         (tr : list call),
    res_mapM (grid_price low step_size) idx = Ok prices ->
    for_in idx (grid_level (Some c) symbol low step_size qty_per_order false)
      orders tr
    = (Ok (orders ++
           omap ok_of
             (responses c (map (grid_order symbol qty_per_order) prices) tr))%list,
       (tr ++ map (grid_order symbol qty_per_order) prices)%list).
Proof.
  induction idx as [|i idx IH]; intros prices orders tr; simpl.
  - intros [= <-]. unfold ret. simpl. rewrite !app_nil_r. reflexivity.
  - unfold bind at 1. unfold grid_level at 1. simpl live.
    unfold bind, lift, try_except, invoke, ret.
    destruct (grid_price low step_size i) as [p|e]; simpl; [|discriminate].
    destruct (res_mapM (grid_price low step_size) idx) as [ps|e] eqn:Hps;
      simpl; [|discriminate].
    intros [= <-]. simpl.
    destruct (c tr (grid_order symbol qty_per_order p)) as [d|e]; simpl;
      rewrite (IH ps) by reflexivity; rewrite <- !app_assoc; reflexivity.
Qed.

End LiveLoops.

Lemma responses_length (c : client) (calls : list call) :
  forall tr, length (responses c calls tr) = length calls.
Proof.
  induction calls as [|k calls IH]; intros tr; simpl; [reflexivity|].
  rewrite IH. reflexivity.
Qed.

(** The [n]-th response answers the [n]-th call after the calls before it. *)
Lemma responses_lookup (c : client) (calls : list call) :
  forall (tr : list call) (n : nat) (k : call),
    calls !! n = Some k ->
    responses c calls tr !! n = Some (c (tr ++ take n calls)%list k).
Proof.
  induction calls as [|k0 calls IH]; intros tr n k Hk; [discriminate|].
  destruct n as [|n]; simpl in *.
  - injection Hk as ->. rewrite app_nil_r. reflexivity.
  - rewrite (IH _ n k Hk), <- app_assoc. reflexivity.
Qed.

Lemma res_mapM_length {A B} (f : A -> res B) (l : list A) :
  forall bs, res_mapM f l = Ok bs -> length bs = length l.
Proof.
  induction l as [|a l IH]; simpl; intros bs.
  - intros [= <-]. reflexivity.
  - destruct (f a) as [b|e]; simpl; [|discriminate].
    destruct (res_mapM f l) as [bs'|e]; simpl; [|discriminate].
    intros [= <-]. simpl. rewrite (IH bs') by reflexivity. reflexivity.
Qed.

Lemma res_mapM_lookup {A B} (f : A -> res B) (l : list A) :
  forall bs n a, res_mapM f l = Ok bs -> l !! n = Some a ->
    exists b, bs !! n = Some b /\ f a = Ok b.
Proof.
  induction l as [|a0 l IH]; simpl; intros bs n a; [discriminate 2|].
  destruct (f a0) as [b0|e] eqn:Hb0; simpl; [|discriminate].
  destruct (res_mapM f l) as [bs'|e]; simpl; [|discriminate].
  intros [= <-] Hn. destruct n as [|n]; simpl in *.
  - injection Hn as <-. exists b0. split; [reflexivity | exact Hb0].
  - apply (IH bs' n a); [reflexivity | exact Hn].
Qed.

(** ** Division and subtraction *)

Lemma div_ok (prec : Z) (a b : dec) :
  is_zero b = false -> exists q, div prec a b = Ok q.
Proof.
  intros Hb. unfold div. rewrite Hb.
  destruct (is_zero a); [eexists; reflexivity|].
  match goal with |- context [let '(_, _) := ?p in _] => destruct p end.
  eexists; reflexivity.
Qed.

Lemma div_by_zero (prec : Z) (a b : dec) :
  is_zero a = false -> is_zero b = true -> div prec a b = Raise DivisionByZero.
Proof. intros Ha Hb. unfold div. rewrite Hb, Ha. reflexivity. Qed.

Lemma signed_at_neg (d : dec) (e : Z) : signed_at (neg d) e = - signed_at d e.
Proof. unfold signed_at, neg; simpl. destruct (dsign d); simpl; lia. Qed.

(** [high - low] is not zero when [low < high]. *)
Lemma sub_nonzero (prec : Z) (low high : dec) :
  0 < prec -> geb low high = false -> is_zero (sub prec high low) = false.
Proof.
  intros Hprec Hlt. unfold is_zero. apply Z.eqb_neq.
  enough (0 < dint (sub prec high low)) by lia.
  unfold sub, add. apply fix_positive; [exact Hprec|]. simpl.
  unfold geb, leb, cmp in Hlt.
  replace (dexp (neg low)) with (dexp low) by reflexivity.
  rewrite signed_at_neg.
  destruct (Z.compare_spec (signed_at high (Z.min (dexp high) (dexp low)))
              (signed_at low (Z.min (dexp high) (dexp low))));
    try discriminate.
  lia.
Qed.

Lemma range_nonpos (n : Z) : n <= 0 -> range n = [].
Proof.
  intros Hn. unfold range, seqZ.
  replace (Z.to_nat n) with O by lia. reflexivity.
Qed.

Lemma range_length (n : Z) : length (range n) = Z.to_nat n.
Proof. unfold range. apply length_seqZ. Qed.

Lemma range_lookup (n : Z) (i : nat) :
  (i < Z.to_nat n)%nat -> range n !! i = Some (Z.of_nat i).
Proof.
  intros Hi. unfold range. rewrite lookup_seqZ_lt by lia. f_equal.
Qed.

(** ** The slicer and the grid builder as a whole *)

Lemma zip_with_map_same {A B C} (f : A -> B -> C) (g : A -> B) (l : list A) :
  zip_with f l (map g l) = map (fun a => f a (g a)) l.
Proof. induction l as [|a l IH]; simpl; [|rewrite IH]; reflexivity. Qed.

(** A dry run of the slicer: one record per chunk, no call. *)
Lemma run_twap_dry (cl : option client) (dry_run : bool)
    (symbol side : string) (total_qty : dec) (chunks : Z) (duration_s : N)
    (tr : list call) :
  live cl dry_run = None ->
  run_twap cl symbol side total_qty chunks duration_s dry_run tr
  = (match twap_quantities total_qty chunks with
     | Ok qs => Ok (zip_with twap_dry_record (range chunks) qs)
     | Raise e => Raise e
     end, tr).
Proof.
  intros Hdry. unfold run_twap, twap_quantities, bind, lift.
  destruct (twap_qty_per total_qty chunks) as [q|e]; simpl; [|reflexivity].
  rewrite twap_loop_dry by exact Hdry. simpl.
  rewrite zip_with_map_same. reflexivity.
Qed.

(** A live run of the slicer: one call per chunk, in order, and for each
    chunk the gateway's response or an ERROR record. *)
Lemma run_twap_live (c : client) (symbol side : string) (total_qty : dec)
    (chunks : Z) (duration_s : N) (tr : list call) (qs : list dec) :
  twap_quantities total_qty chunks = Ok qs ->
  let calls := map (twap_order symbol side) qs in
  run_twap (Some c) symbol side total_qty chunks duration_s false tr
  = (Ok (zip_with twap_result (range chunks) (responses c calls tr)),
     (tr ++ calls)%list).
Proof.
  unfold run_twap, twap_quantities, bind, lift.
  destruct (twap_qty_per total_qty chunks) as [q|e]; simpl; [|discriminate].
  intros [= <-]. rewrite twap_loop_live. simpl.
  rewrite map_map. reflexivity.
Qed.

Lemma create_grid_dry (cl : option client) (dry_run : bool) (symbol : string)
    (low high : dec) (steps : Z) (qty_per_order : dec) (tr : list call)
    (prices : list dec) :
  live cl dry_run = None ->
  geb low high = false ->
  grid_prices low high steps = Ok prices ->
  create_grid cl symbol low high steps qty_per_order dry_run tr
  = (Ok (map (grid_dry_record qty_per_order) prices), tr).
Proof.
  intros Hdry Hlt. unfold create_grid, grid_prices, bind, lift. rewrite Hlt.
  destruct (grid_step_size low high steps) as [s|e]; simpl; [|discriminate].
  intros Hps. rewrite (grid_loop_dry _ _ _ _ _ _ Hdry _ prices) by exact Hps.
  reflexivity.
Qed.

Lemma create_grid_dry_trace (cl : option client) (dry_run : bool)
    (symbol : string) (low high : dec) (steps : Z) (qty_per_order : dec)
    (tr : list call) :
  live cl dry_run = None ->
  snd (create_grid cl symbol low high steps qty_per_order dry_run tr) = tr.
Proof.
  intros Hdry. unfold create_grid, bind, lift, raise.
  destruct (geb low high); [reflexivity|].
  destruct (grid_step_size low high steps) as [s|e]; simpl; [|reflexivity].
  apply grid_loop_dry_trace. exact Hdry.
Qed.

(** A live run of the grid builder: one call per level, in order; the
    result keeps the responses of the placements that went through. *)
Lemma create_grid_live (c : client) (symbol : string) (low high : dec)
    (steps : Z) (qty_per_order : dec) (tr : list call) (prices : list dec) :
  geb low high = false ->
  grid_prices low high steps = Ok prices ->
  let calls := map (grid_order symbol qty_per_order) prices in
  create_grid (Some c) symbol low high steps qty_per_order false tr
  = (Ok (omap ok_of (responses c calls tr)), (tr ++ calls)%list).
Proof.
  intros Hlt. unfold create_grid, grid_prices, bind, lift. rewrite Hlt.
  destruct (grid_step_size low high steps) as [s|e]; simpl; [|discriminate].
  intros Hps. rewrite (grid_loop_live _ _ _ _ _ _ prices) by exact Hps.
  reflexivity.
Qed.

Lemma twap_quantities_length (total_qty : dec) (chunks : Z) (qs : list dec) :
  twap_quantities total_qty chunks = Ok qs -> length qs = Z.to_nat chunks.
Proof.
  unfold twap_quantities.
  destruct (twap_qty_per total_qty chunks) as [q|e]; simpl; [|discriminate].
  intros [= <-]. rewrite length_map. apply range_length.
Qed.

Lemma grid_prices_length (low high : dec) (steps : Z) (prices : list dec) :
  grid_prices low high steps = Ok prices ->
  length prices = Z.to_nat (steps + 1).
Proof.
  unfold grid_prices.
  destruct (grid_step_size low high steps) as [s|e]; simpl; [|discriminate].
  intros Hps. rewrite (res_mapM_length _ _ _ Hps). apply range_length.
Qed.

Lemma quantize_exp (prec : Z) (rnd : rounding) (d p : dec) (e : Z) :
  quantize prec rnd d e = Ok p -> dexp p = e.
Proof.
  unfold quantize. destruct (is_zero d); [intros [= <-]; reflexivity|].
  destruct (prec <? adjusted d - e + 1); [discriminate|].
  destruct (prec <? ndigits (dint (rescale rnd d e))) eqn:Hfit; [discriminate|].
  intros [= <-]. apply Z.ltb_ge in Hfit. unfold fix_.
  destruct (is_zero (rescale rnd d e)) eqn:Hz.
  - unfold rescale. destruct (is_zero d); [reflexivity|].
    destruct (e <=? dexp d); reflexivity.
  - apply Z.leb_le in Hfit. rewrite Hfit.
    unfold rescale. destruct (is_zero d); [reflexivity|].
    destruct (e <=? dexp d); reflexivity.
Qed.

(** ** The slicer: the total is not always handed out *)

(** A share of 10000 or more cannot be quantized to 8 decimals with 12
    digits: [run_twap] raises before its loop, dry or live. *)
Lemma run_twap_large_share_raises (cl : option client) (symbol side : string)
    (total_qty : dec) (chunks : Z) (duration_s : N) (dry_run : bool)
    (tr : list call) (share : dec) :
  div twap_prec total_qty (of_int chunks) = Ok share ->
  is_zero share = false ->
  4 <= adjusted share ->
  run_twap cl symbol side total_qty chunks duration_s dry_run tr
  = (Raise InvalidOperation, tr).
Proof.
  intros Hdiv Hnz Hbig.
  unfold run_twap, twap_qty_per, bind, lift, res_bind. rewrite Hdiv.
  unfold quantize. rewrite Hnz.
  destruct (Z.ltb_spec twap_prec (adjusted share - -8 + 1)) as [_|Hfit];
    [reflexivity|].
  unfold twap_prec in Hfit. lia.
Qed.

(** C1 (the code departs from the claim).  With the context precision of
    12 digits, [run_twap] does not hand out the total in every case:
    for the total 1.0000000000001 in one chunk the only chunk is
    1.00000000000, whose value differs from the total; and for the total
    20000 in two chunks the quantization of the share raises
    [InvalidOperation], so that no chunk is emitted at all. *)
Theorem C1_twap_total_not_preserved :
  let total := mkDec false 10000000000001 (-13) in
  let chunk := mkDec false 100000000000 (-11) in
  of_string "1.0000000000001" = Ok (DFin total) /\
  twap_quantities total 1 = Ok [chunk] /\
  eqv (sum_exact [chunk]) total = false /\
  run_twap None "BTCUSDT" "BUY" total 1 0 true []
    = (Ok [mkdict [("chunk", PInt 1); ("status", PStr "DRY_RUN");
                   ("qty", PStr "1.00000000000")]], []) /\
  of_string "20000" = Ok (DFin (mkDec false 20000 0)) /\
  twap_quantities (mkDec false 20000 0) 2 = Raise InvalidOperation /\
  run_twap None "BTCUSDT" "BUY" (mkDec false 20000 0) 2 0 true []
    = (Raise InvalidOperation, []).
Proof. repeat split; vm_compute; reflexivity. Qed.

(** ** The validators *)

(** C9 (the code departs from the claim).  The validators take the string
    "Infinity" for a positive decimal number and return the infinite
    [Decimal]; on "NaN" the comparison [d <= 0], which stands outside the
    [try], raises [InvalidOperation] and no [ValueError]. *)
Theorem C9_validators_accept_infinity :
  validate_quantity "Infinity" = Ok (DInf false) /\
  validate_price "Infinity" = Ok (DInf false) /\
  validate_quantity "NaN" = Raise InvalidOperation /\
  validate_price "NaN" = Raise InvalidOperation.
Proof. repeat split; vm_compute; reflexivity. Qed.

(** ** The grid builder: validation *)

(** C4, as stated, fails: a negative step count is not rejected; the
    builder returns an empty list, dry or live, and raises nothing. *)
Lemma C4_negative_steps_not_rejected :
  let low := mkDec false 60000 0 in
  let high := mkDec false 70000 0 in
  let qty := mkDec false 5 (-4) in
  let always_up : client := fun _ _ => Ok (mkdict [("orderId", PInt 1)]) in
  create_grid None "BTCUSDT" low high (-1) qty true [] = (Ok [], []) /\
  create_grid (Some always_up) "BTCUSDT" low high (-1) qty false []
    = (Ok [], []).
Proof. split; vm_compute; reflexivity. Qed.

(** C4 (amended).  [create_grid] with [low >= high] raises a [ValueError]
    before any call to the gateway.  The step count is not validated: with
    [low < high], zero steps raise [decimal.DivisionByZero] before any
    call, and a negative step count returns the empty list without any
    call. *)
Theorem C4_grid_validation (cl : option client) (symbol : string)
    (low high : dec) (steps : Z) (qty_per_order : dec) (dry_run : bool)
    (tr : list call) :
  (geb low high = true ->
   create_grid cl symbol low high steps qty_per_order dry_run tr
   = (Raise (ValueError "low must be < high"), tr)) /\
  (geb low high = false -> steps = 0 ->
   create_grid cl symbol low high steps qty_per_order dry_run tr
   = (Raise DivisionByZero, tr)) /\
  (geb low high = false -> steps < 0 ->
   create_grid cl symbol low high steps qty_per_order dry_run tr
   = (Ok [], tr)).
Proof.
  unfold create_grid, grid_step_size, bind, lift, raise.
  split; [|split].
  - intros ->. reflexivity.
  - intros Hlt ->. rewrite Hlt.
    rewrite div_by_zero; [reflexivity | | reflexivity].
    apply sub_nonzero; [reflexivity | exact Hlt].
  - intros Hlt Hneg. rewrite Hlt.
    destruct (div_ok default_prec (sub default_prec high low) (of_int steps))
      as [q ->].
    { unfold is_zero, of_int. simpl. apply Z.eqb_neq. lia. }
    rewrite range_nonpos by lia. reflexivity.
Qed.

(** ** Placement failures of single units *)

(** C3, as stated, fails for the grid builder: when the placement of the
    second of three levels raises, the builder returns two entries, the
    responses of the first and the third level, and no ERROR record. *)
Lemma C3_grid_drops_failed_level :
  let low := mkDec false 60000 0 in
  let high := mkDec false 70000 0 in
  let qty := mkDec false 5 (-4) in
  let second_fails : client := fun tr _ =>
    if (length tr =? 1)%nat then Raise (GatewayError "rejected")
    else Ok (mkdict [("orderId", PInt (Z.of_nat (length tr)))]) in
  fst (create_grid (Some second_fails) "BTCUSDT" low high 2 qty false [])
    = Ok [mkdict [("orderId", PInt 0)]; mkdict [("orderId", PInt 2)]] /\
  length (snd (create_grid (Some second_fails) "BTCUSDT" low high 2 qty
                 false [])) = 3%nat.
Proof. split; vm_compute; reflexivity. Qed.

(** C3 (amended).  A gateway error on the placement of one unit is local
    in both components: every unit is still attempted, in unit order.
    [run_twap] returns exactly one entry per chunk, in chunk order: the
    response of the chunk's placement, or an ERROR record when it raised.
    [create_grid] appends nothing for a level whose placement raised: it
    returns the responses of the levels that were placed, in level order. *)
Theorem C3_unit_failures_are_local (c : client) (symbol side : string)
    (total_qty : dec) (chunks : Z) (duration_s : N)
    (low high : dec) (steps : Z) (qty_per_order : dec)
    (tr : list call) (qs prices : list dec) :
  twap_quantities total_qty chunks = Ok qs ->
  geb low high = false ->
  grid_prices low high steps = Ok prices ->
  let chunk_calls := map (twap_order symbol side) qs in
  let level_calls := map (grid_order symbol qty_per_order) prices in
  (exists results,
     run_twap (Some c) symbol side total_qty chunks duration_s false tr
       = (Ok results, (tr ++ chunk_calls)%list) /\
     length results = Z.to_nat chunks /\
     length chunk_calls = Z.to_nat chunks /\
     forall (i : nat) (k : call), chunk_calls !! i = Some k ->
       results !! i =
         Some (match c (tr ++ take i chunk_calls)%list k with
               | Ok response => response
               | Raise _ =>
                   mkdict [("chunk", PInt (Z.of_nat i + 1));
                           ("status", PStr "ERROR")]
               end)) /\
  create_grid (Some c) symbol low high steps qty_per_order false tr
    = (Ok (omap ok_of (responses c level_calls tr)),
       (tr ++ level_calls)%list) /\
  length level_calls = Z.to_nat (steps + 1).
Proof.
  intros Hqs Hlt Hps chunk_calls level_calls.
  pose proof (twap_quantities_length _ _ _ Hqs) as Hlen.
  assert (Hcalls : length chunk_calls = Z.to_nat chunks).
  { unfold chunk_calls. rewrite length_map. exact Hlen. }
  split; [|split].
  - eexists. split; [apply run_twap_live; exact Hqs|].
    split; [|split; [exact Hcalls|]].
    + rewrite length_zip_with, responses_length, range_length.
      fold chunk_calls. lia.
    + intros i k Hk.
      assert (Hi : (i < Z.to_nat chunks)%nat).
      { rewrite <- Hcalls. eapply lookup_lt_Some. exact Hk. }
      rewrite lookup_zip_with, (range_lookup _ _ Hi). simpl.
      fold chunk_calls. rewrite (responses_lookup _ _ _ _ _ Hk). simpl.
      destruct (c (tr ++ take i chunk_calls)%list k); reflexivity.
  - apply create_grid_live; assumption.
  - unfold level_calls. rewrite length_map.
    apply grid_prices_length with (low := low) (high := high). exact Hps.
Qed.

(** C3 at work: a gateway that is down, three chunks and three levels. *)
Lemma C3_unit_failures_are_local_witness :
  let always_down : client := fun _ _ => Raise (GatewayError "down") in
  let chunk_calls :=
    map (twap_order "BTCUSDT" "BUY")
      [mkDec false 333333333 (-8); mkDec false 333333333 (-8);
       mkDec false 333333334 (-8)] in
  let level_calls :=
    map (grid_order "BTCUSDT" (mkDec false 5 (-4)))
      [mkDec false 6000000 (-2); mkDec false 6500000 (-2);
       mkDec false 7000000 (-2)] in
  (exists results,
     run_twap (Some always_down) "BTCUSDT" "BUY" (mkDec false 10 0) 3 0 false []
       = (Ok results, ([] ++ chunk_calls)%list) /\
     length results = Z.to_nat 3 /\
     length chunk_calls = Z.to_nat 3 /\
     forall (i : nat) (k : call), chunk_calls !! i = Some k ->
       results !! i =
         Some (match always_down ([] ++ take i chunk_calls)%list k with
               | Ok response => response
               | Raise _ =>
                   mkdict [("chunk", PInt (Z.of_nat i + 1));
                           ("status", PStr "ERROR")]
               end)) /\
  create_grid (Some always_down) "BTCUSDT" (mkDec false 60000 0)
      (mkDec false 70000 0) 2 (mkDec false 5 (-4)) false []
    = (Ok (omap ok_of (responses always_down level_calls [])),
       ([] ++ level_calls)%list) /\
  length level_calls = Z.to_nat (2 + 1).
Proof.
  exact (C3_unit_failures_are_local (fun _ _ => Raise (GatewayError "down"))
           "BTCUSDT" "BUY" (mkDec false 10 0) 3 0
           (mkDec false 60000 0) (mkDec false 70000 0) 2 (mkDec false 5 (-4))
           []
           [mkDec false 333333333 (-8); mkDec false 333333333 (-8);
            mkDec false 333333334 (-8)]
           [mkDec false 6000000 (-2); mkDec false 6500000 (-2);
            mkDec false 7000000 (-2)]
           ltac:(vm_compute; reflexivity) ltac:(vm_compute; reflexivity)
           ltac:(vm_compute; reflexivity)).
Defined.

(** ** The grid builder: the price levels *)

(** C7, as stated, fails: with bounds of 28 digits before the point the
    quantization to two decimals needs more digits than the context has,
    and [create_grid] raises [InvalidOperation] without any level. *)
Lemma C7_grid_levels_overflow :
  of_string "1E+27" = Ok (DFin (mkDec false 1 27)) /\
  of_string "2E+27" = Ok (DFin (mkDec false 2 27)) /\
  geb (mkDec false 1 27) (mkDec false 2 27) = false /\
  create_grid None "BTCUSDT" (mkDec false 1 27) (mkDec false 2 27) 1
    (mkDec false 5 (-4)) true []
  = (Raise InvalidOperation, []).
Proof. repeat split; vm_compute; reflexivity. Qed.

(** C7 (amended).  For every grid with [low < high] and [steps >= 1] whose
    level prices can all be quantized in the 28-digit context,
    [create_grid] produces exactly [steps + 1] price levels; level [i] is
    [low + ((high - low) / steps) * i] quantized to two decimals, for [i]
    from 0 to [steps] inclusive; a dry run returns one record per level
    with that price and the quantity per order, and a live run places one
    order per level at that price.  With low = 60000, high = 70000 and
    10 steps the levels are 60000.00, 61000.00, ..., 70000.00. *)
Theorem C7_grid_levels (cl : option client) (dry_run : bool) (c : client)
    (symbol : string) (low high : dec) (steps : Z) (qty_per_order : dec)
    (tr : list call) (prices : list dec) :
  geb low high = false ->
  1 <= steps ->
  grid_prices low high steps = Ok prices ->
  length prices = Z.to_nat (steps + 1) /\
  (exists step_size,
     div default_prec (sub default_prec high low) (of_int steps)
       = Ok step_size /\
     forall i : nat, (i <= Z.to_nat steps)%nat ->
       exists p,
         prices !! i = Some p /\
         quantize default_prec ROUND_HALF_EVEN
           (add default_prec low
              (mul default_prec step_size (of_int (Z.of_nat i)))) (-2)
           = Ok p /\
         dexp p = -2) /\
  (live cl dry_run = None ->
   create_grid cl symbol low high steps qty_per_order dry_run tr
   = (Ok (map (fun p => mkdict [("price", PStr (to_str p));
                                ("qty", PStr (to_str qty_per_order));
                                ("status", PStr "DRY_RUN")]) prices), tr)) /\
  snd (create_grid (Some c) symbol low high steps qty_per_order false tr)
    = (tr ++ map (grid_order symbol qty_per_order) prices)%list /\
  (let! levels := grid_prices (mkDec false 60000 0) (mkDec false 70000 0) 10 in
   Ok (map to_str levels))%res
    = Ok ["60000.00"; "61000.00"; "62000.00"; "63000.00"; "64000.00";
          "65000.00"; "66000.00"; "67000.00"; "68000.00"; "69000.00";
          "70000.00"].
Proof.
  intros Hlt Hsteps Hps.
  split; [exact (grid_prices_length _ _ _ _ Hps)|].
  split; [|split; [|split]].
  - unfold grid_prices, grid_step_size in Hps.
    destruct (div default_prec (sub default_prec high low) (of_int steps))
      as [s|e]; simpl in Hps; [|discriminate].
    exists s. split; [reflexivity|]. intros i Hi.
    destruct (res_mapM_lookup _ _ _ i (Z.of_nat i) Hps) as (p & Hp & Hq).
    { apply range_lookup. lia. }
    exists p. split; [exact Hp|]. split; [exact Hq|].
    exact (quantize_exp _ _ _ _ _ Hq).
  - intros Hdry. apply create_grid_dry; assumption.
  - rewrite (create_grid_live c symbol low high steps qty_per_order tr prices)
      by assumption.
    reflexivity.
  - vm_compute. reflexivity.
Qed.

(** C7 at work: two steps between 60000 and 70000. *)
Lemma C7_grid_levels_witness :
  let prices :=
    [mkDec false 6000000 (-2); mkDec false 6500000 (-2);
     mkDec false 7000000 (-2)] in
  geb (mkDec false 60000 0) (mkDec false 70000 0) = false /\
  1 <= 2 /\
  grid_prices (mkDec false 60000 0) (mkDec false 70000 0) 2 = Ok prices /\
  create_grid None "BTCUSDT" (mkDec false 60000 0) (mkDec false 70000 0) 2
    (mkDec false 5 (-4)) true []
  = (Ok (map (fun p => mkdict [("price", PStr (to_str p));
                               ("qty", PStr (to_str (mkDec false 5 (-4))));
                               ("status", PStr "DRY_RUN")]) prices), []).
Proof.
  intros prices.
  assert (H1 : geb (mkDec false 60000 0) (mkDec false 70000 0) = false)
    by (vm_compute; reflexivity).
  assert (H2 : 1 <= 2) by lia.
  assert (H3 : grid_prices (mkDec false 60000 0) (mkDec false 70000 0) 2
               = Ok prices) by (vm_compute; reflexivity).
  split; [exact H1|]. split; [exact H2|]. split; [exact H3|].
  exact (proj1 (proj2 (proj2
    (C7_grid_levels None true (fun _ _ => Raise (GatewayError "down"))
       "BTCUSDT" (mkDec false 60000 0) (mkDec false 70000 0) 2
       (mkDec false 5 (-4)) [] prices H1 H2 H3))) eq_refl).
Defined.

(** ** Simulation *)

Lemma live_none (cl : option client) (dry_run : bool) :
  dry_run = true \/ cl = None -> live cl dry_run = None.
Proof. intros [-> | ->]; [reflexivity | destruct dry_run; reflexivity]. Qed.



(** C2, as stated, fails for the bracket: a dry run of [place_oco] returns
    the status alone and echoes none of its parameters. *)
Lemma C2_oco_dry_run_echoes_nothing :
  let result :=
    fst (place_oco None "BTCUSDT" "SELL" (mkDec false 1 (-3))
           (mkDec false 70000 0) (mkDec false 60000 0) true []) in
  result = Ok (mkdict [("status", PStr "DRY_RUN")], None) /\
  match result with
  | Ok (d, _) => Some (d !! "symbol", d !! "side", d !! "qty")
  | Raise _ => None
  end = Some (None, None, None).
Proof. split; vm_compute; reflexivity. Qed.

(** C2 (amended).  For every strategy invoked with the dry-run flag set or
    with no client, no gateway call occurs and every record returned has
    the status DRY_RUN.  The market order echoes symbol, side and quantity;
    the limit order also the price; the stop-limit also the stop and limit
    prices.  The slicer returns one record per chunk with the chunk number
    and the chunk's quantity, the grid builder one record per level with
    its price and the quantity per order; the bracket returns the status
    alone. *)
Theorem C2_dry_run (cl : option client) (dry_run : bool) (symbol side : string)
    (qty price stop_price limit_price : dec) (time_in_force : string)
    (chunks : Z) (duration_s poll_interval : N) (polls : nat)
    (low high : dec) (steps : Z) (tr : list call) :
  dry_run = true \/ cl = None ->
  place_market_order cl symbol side qty dry_run tr
    = (Ok (mkdict [("status", PStr "DRY_RUN"); ("symbol", PStr symbol);
                   ("side", PStr side); ("qty", PStr (to_str qty))]), tr) /\
  place_limit_order cl symbol side qty price time_in_force dry_run tr
    = (Ok (mkdict [("status", PStr "DRY_RUN"); ("symbol", PStr symbol);
                   ("side", PStr side); ("qty", PStr (to_str qty));
                   ("price", PStr (to_str price))]), tr) /\
  stop_limit_watch_and_place cl symbol side qty stop_price limit_price
      dry_run poll_interval polls tr
    = (Ok (Returned
         (mkdict [("status", PStr "DRY_RUN"); ("symbol", PStr symbol);
                  ("side", PStr side); ("qty", PStr (to_str qty));
                  ("stop", PStr (to_str stop_price));
                  ("limit", PStr (to_str limit_price))])), tr) /\
  place_oco cl symbol side qty price stop_price dry_run tr
    = (Ok (mkdict [("status", PStr "DRY_RUN")], None), tr) /\
  run_twap cl symbol side qty chunks duration_s dry_run tr
    = (match twap_quantities qty chunks with
       | Ok qs =>
           Ok (zip_with
                 (fun i q => mkdict [("chunk", PInt (i + 1));
                                     ("status", PStr "DRY_RUN");
                                     ("qty", PStr (to_str q))])
                 (range chunks) qs)
       | Raise e => Raise e
       end, tr) /\
  snd (create_grid cl symbol low high steps qty dry_run tr) = tr /\
  (forall prices,
     geb low high = false -> grid_prices low high steps = Ok prices ->
     fst (create_grid cl symbol low high steps qty dry_run tr)
       = Ok (map (fun p => mkdict [("price", PStr (to_str p));
                                   ("qty", PStr (to_str qty));
                                   ("status", PStr "DRY_RUN")]) prices)).
Proof.
  intros Hdry. apply live_none in Hdry.
  repeat split.
  - unfold place_market_order. rewrite Hdry. reflexivity.
  - unfold place_limit_order. rewrite Hdry. reflexivity.
  - unfold stop_limit_watch_and_place. rewrite Hdry. reflexivity.
  - unfold place_oco. rewrite Hdry. reflexivity.
  - apply run_twap_dry. exact Hdry.
  - apply create_grid_dry_trace. exact Hdry.
  - intros prices Hlt Hps.
    rewrite (create_grid_dry cl dry_run symbol low high steps qty tr prices)
      by assumption.
    reflexivity.
Qed.

(** C2 at work: a dry market order. *)
Lemma C2_dry_run_witness :
  place_market_order None "BTCUSDT" "BUY" (mkDec false 1 (-3)) true []
    = (Ok (mkdict [("status", PStr "DRY_RUN"); ("symbol", PStr "BTCUSDT");
                   ("side", PStr "BUY"); ("qty", PStr "0.001")]), []).
Proof.
  exact (proj1
    (C2_dry_run None true "BTCUSDT" "BUY" (mkDec false 1 (-3))
       (mkDec false 65000 0) (mkDec false 64000 0) (mkDec false 64900 0)
       "GTC" 4 0 2 0 (mkDec false 60000 0) (mkDec false 70000 0) 10 []
       (or_introl eq_refl))).
Defined.

(** ** Missing credentials *)




(** ** The bracket watcher *)

Section Watcher.

Variables (c : client) (symbol : string) (tp_order sl_order : dict).

Let get_tp : call := futures_get_order symbol (dict_get tp_order "orderId").
Let get_sl : call := futures_get_order symbol (dict_get sl_order "orderId").
Let cancel_sl : call :=
  futures_cancel_order symbol (dict_get sl_order "orderId").
Let cancel_tp : call :=
  futures_cancel_order symbol (dict_get tp_order "orderId").

(** A turn in which the take-profit leg is seen FILLED: the stop-loss leg
    is cancelled, whatever its own status. *)
Lemma watcher_poll_tp_filled (tr : list call) (tp_status sl_status : dict) :
  c tr get_tp = Ok tp_status ->
  c (tr ++ [get_tp])%list get_sl = Ok sl_status ->
  is_str (dict_get tp_status "status") "FILLED" = true ->
  watcher_poll c symbol tp_order sl_order tr
  = (Ok (match c (tr ++ [get_tp; get_sl])%list cancel_sl with
         | Ok _ => Some TP
         | Raise _ => None
         end),
     (tr ++ [get_tp; get_sl; cancel_sl])%list).
Proof.
  intros Htp Hsl Hfilled.
  unfold watcher_poll, try_except, bind, invoke, ret.
  fold get_tp get_sl cancel_sl cancel_tp.
  rewrite Htp, Hsl, Hfilled.
  replace ((tr ++ [get_tp]) ++ [get_sl])%list
    with (tr ++ [get_tp; get_sl])%list by (rewrite <- app_assoc; reflexivity).
  replace ((tr ++ [get_tp; get_sl]) ++ [cancel_sl])%list
    with (tr ++ [get_tp; get_sl; cancel_sl])%list
    by (rewrite <- app_assoc; reflexivity).
  destruct (c (tr ++ [get_tp; get_sl])%list cancel_sl); reflexivity.
Qed.

(** A cancel that raises leaves the watcher in its loop: the next turn
    starts over (retry for ever). *)
Lemma watcher_retries_failed_cancel (tr : list call)
    (tp_status sl_status : dict) (e : pyexc) (polls : nat) :
  c tr get_tp = Ok tp_status ->
  c (tr ++ [get_tp])%list get_sl = Ok sl_status ->
  is_str (dict_get tp_status "status") "FILLED" = true ->
  c (tr ++ [get_tp; get_sl])%list cancel_sl = Raise e ->
  watcher c symbol tp_order sl_order (S polls) tr
  = watcher c symbol tp_order sl_order polls
      (tr ++ [get_tp; get_sl; cancel_sl])%list.
Proof.
  intros Htp Hsl Hfilled Hcancel. simpl. unfold bind at 1.
  rewrite (watcher_poll_tp_filled tr tp_status sl_status) by assumption.
  rewrite Hcancel. reflexivity.
Qed.

End Watcher.

(** C10.  In a turn of the watch loop in which both legs are seen FILLED,
    the take-profit check comes first: the calls of the turn are the two
    queries and exactly one cancel, that of the stop-loss leg; the turn
    ends the watch with the take-profit outcome when the cancel goes
    through, and in no case with the stop-loss outcome. *)
Theorem C10_take_profit_first (c : client) (symbol : string)
    (tp_order sl_order : dict) (tr : list call) (tp_status sl_status : dict) :
  let get_tp := futures_get_order symbol (dict_get tp_order "orderId") in
  let get_sl := futures_get_order symbol (dict_get sl_order "orderId") in
  let cancel_sl := futures_cancel_order symbol (dict_get sl_order "orderId") in
  c tr get_tp = Ok tp_status ->
  c (tr ++ [get_tp])%list get_sl = Ok sl_status ->
  dict_get tp_status "status" = PStr "FILLED" ->
  dict_get sl_status "status" = PStr "FILLED" ->
  snd (watcher_poll c symbol tp_order sl_order tr)
    = (tr ++ [get_tp; get_sl; cancel_sl])%list /\
  fst (watcher_poll c symbol tp_order sl_order tr) <> Ok (Some SL) /\
  (forall ack, c (tr ++ [get_tp; get_sl])%list cancel_sl = Ok ack ->
     forall polls,
       watcher c symbol tp_order sl_order (S polls) tr
       = (Ok (Returned TP), (tr ++ [get_tp; get_sl; cancel_sl])%list)).
Proof.
  intros get_tp get_sl cancel_sl Htp Hsl Htpf Hslf.
  assert (Hpoll := watcher_poll_tp_filled c symbol tp_order sl_order tr
                     tp_status sl_status Htp Hsl).
  rewrite Htpf in Hpoll. specialize (Hpoll eq_refl).
  fold get_tp get_sl cancel_sl in Hpoll.
  split; [rewrite Hpoll; reflexivity|]. split.
  - rewrite Hpoll. simpl.
    destruct (c (tr ++ [get_tp; get_sl])%list cancel_sl); discriminate.
  - intros ack Hack polls. simpl. unfold bind at 1.
    rewrite Hpoll, Hack. reflexivity.
Qed.

(** C10 at work: an exchange on which every order is FILLED. *)
Lemma C10_take_profit_first_witness :
  let filled : client := fun _ _ => Ok (mkdict [("status", PStr "FILLED")]) in
  let tp_order := mkdict [("orderId", PInt 1)] in
  let sl_order := mkdict [("orderId", PInt 2)] in
  snd (watcher_poll filled "BTCUSDT" tp_order sl_order [])
    = [futures_get_order "BTCUSDT" (PInt 1);
       futures_get_order "BTCUSDT" (PInt 2);
       futures_cancel_order "BTCUSDT" (PInt 2)].
Proof.
  exact (proj1
    (C10_take_profit_first
       (fun _ _ => Ok (mkdict [("status", PStr "FILLED")])) "BTCUSDT"
       (mkdict [("orderId", PInt 1)]) (mkdict [("orderId", PInt 2)]) []
       (mkdict [("status", PStr "FILLED")])
       (mkdict [("status", PStr "FILLED")])
       eq_refl eq_refl eq_refl eq_refl)).
Defined.



(** ** The stop-limit watcher *)



Section StopLimit.

Variables (c : client) (symbol side : string).
Variables (qty stop_price limit_price : dec).
Variable fires : dec -> bool.
Hypothesis stop_hit_fires :
  forall price, stop_hit side (DFin price) stop_price = Ok (fires price).





End StopLimit.



(** ** The validators on finite numbers *)

Lemma take_digits_all_digits (s : string) :
  all_digits (fst (take_digits s)) = true.
Proof.
  induction s as [|c s IH]; simpl; [reflexivity|].
  destruct (is_digit c) eqn:Hc; [|reflexivity].
  destruct (take_digits s) as [ds rest]. simpl in *. rewrite Hc, IH.
  reflexivity.
Qed.

Lemma all_digits_append (s t : string) :
  all_digits s = true -> all_digits t = true ->
  all_digits (String.append s t) = true.
Proof.
  induction s as [|c s IH]; simpl; [auto|].
  intros [Hc Hs]%andb_true_iff Ht. rewrite Hc, IH by assumption. reflexivity.
Qed.

Lemma digits_val_aux_nonneg (s : string) :
  forall acc, all_digits s = true -> 0 <= acc -> 0 <= digits_val_aux s acc.
Proof.
  induction s as [|c s IH]; simpl; intros acc Hs Hacc; [exact Hacc|].
  apply andb_true_iff in Hs as [Hc Hs]. apply IH; [exact Hs|].
  unfold is_digit in Hc. apply andb_true_iff in Hc as [Hlo _].
  apply Nat.leb_le in Hlo. lia.
Qed.

Lemma parse_number_nonneg (s : string) (coeff e : Z) :
  parse_number s = Some (coeff, e) -> 0 <= coeff.
Proof.
  unfold parse_number.
  pose proof (take_digits_all_digits s) as Hint.
  destruct (take_digits s) as [intpart r1]. simpl in Hint.
  assert (Hfrac : forall fracpart r2,
            (match r1 with
             | String c r => if Ascii.eqb c "." then take_digits r else ("", r1)
             | EmptyString => ("", r1)
             end) = (fracpart, r2) -> all_digits fracpart = true).
  { intros fracpart r2. destruct r1 as [|c r]; [intros [= <- _]; reflexivity|].
    destruct (Ascii.eqb c ".").
    - intros Heq. pose proof (take_digits_all_digits r) as H.
      rewrite Heq in H. exact H.
    - intros [= <- _]. reflexivity. }
  destruct (match r1 with
            | String c r => if Ascii.eqb c "." then take_digits r else ("", r1)
            | EmptyString => ("", r1)
            end) as [fracpart r2].
  specialize (Hfrac fracpart r2 eq_refl).
  pose proof (all_digits_append _ _ Hint Hfrac) as Hall.
  destruct (String.append intpart fracpart) as [|c digits] eqn:Happ;
    [discriminate|].
  destruct (parse_exp r2); [|discriminate].
  intros [= <- _]. apply digits_val_aux_nonneg; [exact Hall | lia].
Qed.

Lemma parse_special_not_finite (sign : bool) (s : string) (d : dec) :
  parse_special sign s <> Some (DFin d).
Proof.
  unfold parse_special.
  destruct (String.eqb (lower s) "inf" || String.eqb (lower s) "infinity");
    [discriminate|].
  match goal with |- context [if ?b then _ else _] => destruct b end;
    [|discriminate].
  match goal with |- context [take_digits ?t] => destruct (take_digits t) as [? [|? ?]] end;
    discriminate.
Qed.

(** The constructor only raises [InvalidOperation], and the coefficient
    of a finite result is not negative. *)
Lemma of_string_raises (text : string) (e : pyexc) :
  of_string text = Raise e -> e = InvalidOperation.
Proof.
  unfold of_string.
  destruct (split_sign (remove_underscores (strip text))) as [sign body].
  destruct (parse_number body) as [[coeff ex]|]; [discriminate|].
  destruct (parse_special sign body); [discriminate|].
  intros [= <-]. reflexivity.
Qed.

Lemma of_string_nonneg (text : string) (d : dec) :
  of_string text = Ok (DFin d) -> 0 <= dint d.
Proof.
  unfold of_string.
  destruct (split_sign (remove_underscores (strip text))) as [sign body].
  destruct (parse_number body) as [[coeff ex]|] eqn:Hnum.
  - intros [= <-]. simpl. exact (parse_number_nonneg _ _ _ Hnum).
  - destruct (parse_special sign body) as [d'|] eqn:Hsp; [|discriminate].
    intros [= ->]. exfalso. exact (parse_special_not_finite _ _ _ Hsp).
Qed.

(** Against zero, the order of a finite decimal is read off its sign and
    coefficient. *)
Lemma le_zero (d : dec) :
  0 <= dint d ->
  le_ext (DFin d) (DFin (of_int 0))
  = Ok (negb (negb (dsign d) && (0 <? dint d))).
Proof.
  intros Hnn. unfold le_ext, cmp_ext, cmp, signed_at. simpl.
  assert (Hp : 0 < 10 ^ (dexp d - Z.min (dexp d) 0))
    by (apply Z.pow_pos_nonneg; lia).
  rewrite Z.mul_0_l, Z.mul_0_r.
  destruct (dsign d); simpl;
    destruct (Z.ltb_spec 0 (dint d));
    match goal with |- context [?x ?= 0] => destruct (Z.compare_spec x 0) end;
    try reflexivity; nia.
Qed.

(** What is right in C9.  A string that [Decimal] cannot read is rejected
    with a [ValueError]; a string that denotes a finite number is
    accepted, and its value returned, exactly when the number is positive,
    and rejected with a [ValueError] when it is zero or negative; the two
    validators do the same up to the message. *)
Theorem validators_on_numbers (what text : string) :
  (forall e, of_string text = Raise e ->
     validate_positive what text
     = Raise (ValueError (String.append what " must be a decimal number"))) /\
  (forall d, of_string text = Ok (DFin d) ->
     validate_positive what text
     = if negb (dsign d) && (0 <? dint d) then Ok (DFin d)
       else Raise (ValueError (String.append what " must be > 0"))) /\
  validate_quantity text = validate_positive "Quantity" text /\
  validate_price text = validate_positive "Price" text.
Proof.
  repeat split.
  - intros e He. unfold validate_positive.
    rewrite He, (of_string_raises _ _ He). reflexivity.
  - intros d Hd. unfold validate_positive. rewrite Hd.
    rewrite (le_zero d (of_string_nonneg _ _ Hd)).
    destruct (negb (dsign d) && (0 <? dint d)); reflexivity.
Qed.

(** ** Placing the bracket *)


(** ** Retrying *)

(** When the placement that follows the trigger raises, the stop-limit
    watcher does not return: it goes on polling, and places the order
    again at the next poll that meets the stop condition. *)
Theorem stop_limit_retries_failed_placement (c : client)
    (symbol side : string) (qty stop_price limit_price : dec)
    (tr : list call) (ticker : dict) (price : dec) (e : pyexc) (polls : nat) :
  let poll := futures_symbol_ticker symbol in
  let place := stop_limit_order symbol side qty limit_price in
  c tr poll = Ok ticker ->
  decimal_of (dict_get ticker "price") = Ok (DFin price) ->
  stop_hit side (DFin price) stop_price = Ok true ->
  c (tr ++ [poll])%list place = Raise e ->
  stop_limit_loop c symbol side qty stop_price limit_price (S polls) tr
  = stop_limit_loop c symbol side qty stop_price limit_price polls
      (tr ++ [poll; place])%list.
Proof.
  intros poll place Htick Hprice Hhit Hplace. simpl. unfold bind at 1.
  unfold stop_limit_poll, try_except, bind, invoke, lift, ret.
  fold poll place. rewrite Htick, Hprice, Hhit, Hplace.
  rewrite <- app_assoc. reflexivity.
Qed.

(** ** The slicer's parameters *)


(** A cancel that times out, at work. *)
Lemma watcher_retries_failed_cancel_witness :
  let exchange : client := fun _ k =>
    match k with
    | futures_cancel_order _ _ => Raise (GatewayError "timeout")
    | _ => Ok (mkdict [("status", PStr "FILLED")])
    end in
  let tp_order := mkdict [("orderId", PInt 1)] in
  let sl_order := mkdict [("orderId", PInt 2)] in
  watcher exchange "BTCUSDT" tp_order sl_order 3 []
  = watcher exchange "BTCUSDT" tp_order sl_order 2
      [futures_get_order "BTCUSDT" (PInt 1);
       futures_get_order "BTCUSDT" (PInt 2);
       futures_cancel_order "BTCUSDT" (PInt 2)].
Proof.
  exact (watcher_retries_failed_cancel
    (fun _ k =>
       match k with
       | futures_cancel_order _ _ => Raise (GatewayError "timeout")
       | _ => Ok (mkdict [("status", PStr "FILLED")])
       end)
    "BTCUSDT" (mkdict [("orderId", PInt 1)]) (mkdict [("orderId", PInt 2)]) []
    (mkdict [("status", PStr "FILLED")]) (mkdict [("status", PStr "FILLED")])
    (GatewayError "timeout") 2 eq_refl eq_refl eq_refl eq_refl).
Defined.

(** A rejected placement, at work. *)
Lemma stop_limit_retries_failed_placement_witness :
  let exchange : client := fun _ k =>
    match k with
    | futures_symbol_ticker _ => Ok (mkdict [("price", PStr "63999.5")])
    | _ => Raise (GatewayError "rejected")
    end in
  stop_limit_loop exchange "BTCUSDT" "SELL" (mkDec false 1 (-3))
    (mkDec false 64000 0) (mkDec false 63900 0) 3 []
  = stop_limit_loop exchange "BTCUSDT" "SELL" (mkDec false 1 (-3))
      (mkDec false 64000 0) (mkDec false 63900 0) 2
      [futures_symbol_ticker "BTCUSDT";
       stop_limit_order "BTCUSDT" "SELL" (mkDec false 1 (-3))
         (mkDec false 63900 0)].
Proof.
  exact (stop_limit_retries_failed_placement
    (fun _ k =>
       match k with
       | futures_symbol_ticker _ => Ok (mkdict [("price", PStr "63999.5")])
       | _ => Raise (GatewayError "rejected")
       end)
    "BTCUSDT" "SELL" (mkDec false 1 (-3)) (mkDec false 64000 0)
    (mkDec false 63900 0) [] (mkdict [("price", PStr "63999.5")])
    (mkDec false 639995 (-1)) (GatewayError "rejected") 2
    eq_refl eq_refl eq_refl eq_refl).
Defined.

(** ** Symbols and sides *)

Lemma upper_char_idempotent (c : ascii) : upper_char (upper_char c) = upper_char c.
Proof. destruct c as [[] [] [] [] [] [] [] []]; reflexivity. Qed.

Lemma upper_idempotent (s : string) : upper (upper s) = upper s.
Proof.
  induction s as [|c s IH]; simpl; [reflexivity|].
  rewrite upper_char_idempotent, IH. reflexivity.
Qed.


(** [validate_side] only ever returns "BUY" or "SELL"; it reads its
    argument without regard to case, so that what it returned it accepts
    again unchanged; and the only error it raises is its [ValueError]. *)
Theorem validate_side_canonical (side : string) :
  (forall s, validate_side side = Ok s ->
     (s = "BUY" \/ s = "SELL") /\ validate_side s = Ok s) /\
  validate_side (upper side) = validate_side side /\
  (forall e, validate_side side = Raise e ->
     e = ValueError "Side must be BUY or SELL").
Proof.
  unfold validate_side. rewrite upper_idempotent. split; [|split].
  - intros s.
    destruct (String.eqb_spec (upper side) "BUY") as [Hb|_];
      [intros [= <-]; rewrite Hb; split; [left|]; reflexivity|].
    destruct (String.eqb_spec (upper side) "SELL") as [Hs|_];
      [intros [= <-]; rewrite Hs; split; [right|]; reflexivity | discriminate].
  - reflexivity.
  - intros e.
    destruct (String.eqb (upper side) "BUY" || String.eqb (upper side) "SELL");
      [discriminate | intros [= <-]; reflexivity].
Qed.


(** ** The runs of the bracket watcher *)

Section WatcherRuns.

Variables (c : client) (symbol : string) (tp_order sl_order : dict).

Lemma watcher_poll_step (tr : list call) :
  exists r calls,
    watcher_poll c symbol tp_order sl_order tr = (Ok r, (tr ++ calls)%list) /\
    watcher_step c symbol tp_order sl_order tr r calls.
Proof.
  unfold watcher_poll, try_except, bind, invoke, ret.
  fold (get_of symbol tp_order) (get_of symbol sl_order)
       (cancel_of symbol tp_order) (cancel_of symbol sl_order).
  destruct (c tr (get_of symbol tp_order)) as [tps|e] eqn:Htp.
  2:{ eexists _, _. split; [reflexivity|]. eapply tp_query_raises. exact Htp. }
  destruct (c (tr ++ [get_of symbol tp_order])%list (get_of symbol sl_order))
    as [sls|e] eqn:Hsl.
  2:{ eexists None, [_; _]. rewrite <- app_assoc. split; [reflexivity|].
      eapply sl_query_raises; eassumption. }
  fold (filled tps) (filled sls).
  destruct (filled tps) eqn:Hft.
  - destruct (c ((tr ++ [get_of symbol tp_order]) ++ [get_of symbol sl_order])%list
                (cancel_of symbol sl_order)) as [ack|e] eqn:Hc;
      rewrite <- !app_assoc in *; simpl in *.
    + eexists (Some TP), [_; _; _]. split; [reflexivity|].
      eapply (leg_filled _ _ _ _ _ TP); eassumption.
    + eexists None, [_; _; _]. split; [reflexivity|].
      eapply (cancel_raises _ _ _ _ _ TP); eassumption.
  - destruct (filled sls) eqn:Hfs.
    + destruct (c ((tr ++ [get_of symbol tp_order]) ++ [get_of symbol sl_order])%list
                  (cancel_of symbol tp_order)) as [ack|e] eqn:Hc;
        rewrite <- !app_assoc in *; simpl in *.
      * eexists (Some SL), [_; _; _]. split; [reflexivity|].
        eapply (leg_filled _ _ _ _ _ SL); try eassumption. split; assumption.
      * eexists None, [_; _; _]. split; [reflexivity|].
        eapply (cancel_raises _ _ _ _ _ SL); try eassumption. split; assumption.
    + eexists None, [_; _]. rewrite <- app_assoc. split; [reflexivity|].
      eapply none_filled; eassumption.
Qed.

(** Every bounded execution of the watcher is a run. *)
Lemma watcher_is_run (polls : nat) : forall tr,
  exists w calls,
    watcher c symbol tp_order sl_order polls tr = (Ok w, (tr ++ calls)%list) /\
    watcher_run c symbol tp_order sl_order tr w calls.
Proof.
  induction polls as [|polls IH]; intros tr; simpl.
  - exists Watching, []. rewrite app_nil_r. split; [reflexivity | constructor].
  - unfold bind at 1.
    destruct (watcher_poll_step tr) as (r & calls & -> & Hstep).
    destruct r as [l|].
    + exists (Returned l), calls. split; [reflexivity|].
      apply watcher_done. exact Hstep.
    + unfold time_sleep, bind, ret.
      destruct (IH (tr ++ calls)%list) as (w & rest & -> & Hrun).
      exists w, (calls ++ rest)%list. rewrite <- app_assoc.
      split; [reflexivity|]. eapply watcher_more; eassumption.
Qed.

End WatcherRuns.

Lemma app_eq_split {A} (l1 l2 pre rest : list A) (k : A) :
  (l1 ++ l2 = pre ++ k :: rest)%list ->
  (exists pre', pre = (l1 ++ pre')%list /\ l2 = (pre' ++ k :: rest)%list) \/
  (exists mid, l1 = (pre ++ k :: mid)%list /\ rest = (mid ++ l2)%list).
Proof.
  revert pre. induction l1 as [|a l1 IH]; intros pre H; simpl in *.
  - left. exists pre. split; [reflexivity | exact H].
  - destruct pre as [|b pre]; simpl in H.
    + injection H as <- <-. right. exists l1. split; reflexivity.
    + injection H as <- H. destruct (IH pre H) as [(pre' & -> & ->)|(mid & -> & ->)].
      * left. exists pre'. split; reflexivity.
      * right. exists mid. split; reflexivity.
Qed.

Section WatcherSafety.

Variables (c : client) (symbol : string) (tp_order sl_order : dict).

Let get_tp : call := get_of symbol tp_order.
Let get_sl : call := get_of symbol sl_order.
Let justified := cancel_justified c symbol tp_order sl_order.

Lemma watcher_step_cancel (tr : list call) (r : option leg)
    (calls pre mid : list call) (k : call) (symbol' : string) (id : pyval) :
  watcher_step c symbol tp_order sl_order tr r calls ->
  calls = (pre ++ k :: mid)%list ->
  k = futures_cancel_order symbol' id ->
  pre = [get_tp; get_sl] /\ mid = [] /\ justified tr k.
Proof.
  intros Hstep Hcalls Hk.
  assert (Hget : forall o, k <> get_of symbol o)
    by (intros o; rewrite Hk; discriminate).
  destruct Hstep as [e He | tps e Htp Hsl | tps sls Htp Hsl Hft Hfs
                    | l tps sls ack Htp Hsl Hl Hack | l tps sls e Htp Hsl Hl He];
    destruct pre as [|a [|b [|d pre]]]; simpl in Hcalls;
    try (injection Hcalls as Ha; try (exfalso; eapply Hget; symmetry; exact Ha));
    try discriminate;
    try (exfalso; eapply Hget; symmetry; eassumption);
    try (destruct pre; discriminate).
  all: subst; repeat split; try reflexivity.
  all: try (exists tps, sls; repeat split; try assumption;
            destruct l; [left; split; [reflexivity | exact Hl]
                        | right; destruct Hl; repeat split; assumption]).
  all: try (destruct mid; [reflexivity | discriminate]).
Qed.

End WatcherSafety.

Lemma is_str_eq (v : pyval) (s : string) : is_str v s = true -> v = PStr s.
Proof.
  destruct v; simpl; try discriminate.
  intros H. apply String.eqb_eq in H. rewrite H. reflexivity.
Qed.

Section WatcherRunFacts.

Variables (c : client) (symbol : string) (tp_order sl_order : dict).

Let own (k : call) : Prop :=
  k = get_of symbol tp_order \/ k = get_of symbol sl_order \/
  k = cancel_of symbol tp_order \/ k = cancel_of symbol sl_order.

Lemma watcher_step_own (tr : list call) (r : option leg) (calls : list call) :
  watcher_step c symbol tp_order sl_order tr r calls -> Forall own calls.
Proof.
  intros Hstep. unfold own.
  destruct Hstep as [| | |l ? ? ? ? ? ? ?|l ? ? ? ? ? ? ?];
    repeat match goal with
           | |- Forall _ (_ :: _) =>
               constructor; [try destruct l; cbv beta; intuition congruence|]
           end;
    constructor.
Qed.

Lemma watcher_run_own (tr : list call) (w : watch leg) (calls : list call) :
  watcher_run c symbol tp_order sl_order tr w calls -> Forall own calls.
Proof.
  induction 1 as [tr | tr l calls Hstep | tr calls w rest Hstep Hrun IH].
  - constructor.
  - eapply watcher_step_own. exact Hstep.
  - apply Forall_app. split; [eapply watcher_step_own; exact Hstep | exact IH].
Qed.

Lemma watcher_run_cancel (tr : list call) (w : watch leg) (calls : list call) :
  watcher_run c symbol tp_order sl_order tr w calls ->
  forall pre k rest symbol' id,
    calls = (pre ++ k :: rest)%list ->
    k = futures_cancel_order symbol' id ->
    exists pre',
      pre = (pre' ++ [get_of symbol tp_order; get_of symbol sl_order])%list /\
      cancel_justified c symbol tp_order sl_order (tr ++ pre')%list k.
Proof.
  induction 1 as [tr | tr l calls Hstep | tr calls w rest0 Hstep Hrun IH];
    intros pre k rest symbol' id Hcalls Hk.
  - destruct pre; discriminate.
  - destruct (watcher_step_cancel c symbol tp_order sl_order _ _ _ _ _ _ _ _ Hstep Hcalls Hk)
      as (-> & _ & Hj).
    exists []. rewrite app_nil_r. split; [reflexivity | exact Hj].
  - destruct (app_eq_split _ _ _ _ _ Hcalls)
      as [(pre' & -> & Hrest)|(mid & Hin & _)].
    + destruct (IH _ _ _ _ _ Hrest Hk) as (pre'' & -> & Hj).
      exists (calls ++ pre'')%list. rewrite <- !app_assoc in *.
      split; [reflexivity | exact Hj].
    + destruct (watcher_step_cancel c symbol tp_order sl_order _ _ _ _ _ _ _ _ Hstep Hin Hk)
        as (-> & _ & Hj).
      exists []. rewrite app_nil_r. split; [reflexivity | exact Hj].
Qed.

Lemma watcher_run_returned (tr : list call) (l : leg) (calls : list call) :
  watcher_run c symbol tp_order sl_order tr (Returned l) calls ->
  exists pre tp_status sl_status ack,
    let other := match l with TP => sl_order | SL => tp_order end in
    calls = (pre ++ [get_of symbol tp_order; get_of symbol sl_order;
                     cancel_of symbol other])%list /\
    c (tr ++ pre)%list (get_of symbol tp_order) = Ok tp_status /\
    c (tr ++ pre ++ [get_of symbol tp_order])%list (get_of symbol sl_order)
      = Ok sl_status /\
    match l with
    | TP => filled tp_status = true
    | SL => filled tp_status = false /\ filled sl_status = true
    end /\
    c (tr ++ pre ++ [get_of symbol tp_order; get_of symbol sl_order])%list
      (cancel_of symbol other) = Ok ack.
Proof.
  intros Hrun. remember (Returned l) as w eqn:Hw.
  induction Hrun as [tr | tr l' calls Hstep | tr calls w rest Hstep Hrun IH].
  - discriminate.
  - injection Hw as ->. inversion Hstep as [| | |l0 tps sls ack Htp Hsl Hl Hack|];
      subst.
    exists [], tps, sls, ack. simpl. rewrite !app_nil_r.
    repeat split; assumption.
  - destruct (IH Hw) as (pre & tps & sls & ack & -> & Htp & Hsl & Hl & Hack).
    exists (calls ++ pre)%list, tps, sls, ack. simpl.
    rewrite <- !app_assoc in *. repeat split; assumption.
Qed.

End WatcherRunFacts.

(** The bracket watcher never raises, whatever the gateway does, and
    the only calls it makes are status queries and cancels of the two
    orders it was given: it places no order. *)
Theorem watcher_never_raises (c : client) (symbol : string)
    (tp_order sl_order : dict) (polls : nat) (tr : list call) :
  exists w calls,
    watcher c symbol tp_order sl_order polls tr = (Ok w, (tr ++ calls)%list) /\
    Forall (fun k =>
      k = futures_get_order symbol (dict_get tp_order "orderId") \/
      k = futures_get_order symbol (dict_get sl_order "orderId") \/
      k = futures_cancel_order symbol (dict_get tp_order "orderId") \/
      k = futures_cancel_order symbol (dict_get sl_order "orderId")) calls.
Proof.
  destruct (watcher_is_run c symbol tp_order sl_order polls tr)
    as (w & calls & Heq & Hrun).
  exists w, calls. split; [exact Heq|].
  exact (watcher_run_own _ _ _ _ _ _ _ Hrun).
Qed.

(** The bracket watcher cancels only on a fill it has just seen: every
    cancel it issues comes right after the two status queries of the same
    turn, both answered, and it is the cancel of the stop-loss leg with the
    take-profit leg seen FILLED, or the cancel of the take-profit leg with
    the stop-loss leg, and not the take-profit leg, seen FILLED. *)
Theorem watcher_cancels_only_after_fill (c : client) (symbol : string)
    (tp_order sl_order : dict) (polls : nat) (tr pre rest : list call)
    (k : call) (symbol' : string) (id : pyval) :
  snd (watcher c symbol tp_order sl_order polls tr)
    = (tr ++ pre ++ k :: rest)%list ->
  k = futures_cancel_order symbol' id ->
  exists pre' tp_status sl_status,
    pre = (pre' ++ [futures_get_order symbol (dict_get tp_order "orderId");
                    futures_get_order symbol (dict_get sl_order "orderId")])%list /\
    c (tr ++ pre')%list
      (futures_get_order symbol (dict_get tp_order "orderId")) = Ok tp_status /\
    c (tr ++ pre' ++
         [futures_get_order symbol (dict_get tp_order "orderId")])%list
      (futures_get_order symbol (dict_get sl_order "orderId")) = Ok sl_status /\
    ((k = futures_cancel_order symbol (dict_get sl_order "orderId") /\
      dict_get tp_status "status" = PStr "FILLED") \/
     (k = futures_cancel_order symbol (dict_get tp_order "orderId") /\
      dict_get tp_status "status" <> PStr "FILLED" /\
      dict_get sl_status "status" = PStr "FILLED")).
Proof.
  intros Htrace Hk.
  destruct (watcher_is_run c symbol tp_order sl_order polls tr)
    as (w & calls & Heq & Hrun).
  rewrite Heq in Htrace. simpl in Htrace. apply app_inv_head in Htrace.
  destruct (watcher_run_cancel _ _ _ _ _ _ _ Hrun _ _ _ _ _ Htrace Hk)
    as (pre' & -> & tps & sls & Htp & Hsl & Hj).
  exists pre', tps, sls. rewrite <- app_assoc in Hsl.
  split; [reflexivity|]. split; [exact Htp|]. split; [exact Hsl|].
  destruct Hj as [(-> & Hf)|(-> & Hnf & Hf)].
  - left. split; [reflexivity|]. apply is_str_eq. exact Hf.
  - right. split; [reflexivity|]. split.
    + intros Heq'. unfold filled in Hnf. rewrite Heq' in Hnf. discriminate.
    + apply is_str_eq. exact Hf.
Qed.

(** A cancel issued by the watcher, at work. *)
Lemma watcher_cancels_only_after_fill_witness :
  let exchange : client := fun _ _ => Ok (mkdict [("status", PStr "FILLED")]) in
  let tp_order := mkdict [("orderId", PInt 1)] in
  let sl_order := mkdict [("orderId", PInt 2)] in
  exists pre' tp_status sl_status,
    [futures_get_order "BTCUSDT" (PInt 1); futures_get_order "BTCUSDT" (PInt 2)]
      = (pre' ++ [futures_get_order "BTCUSDT" (dict_get tp_order "orderId");
                  futures_get_order "BTCUSDT" (dict_get sl_order "orderId")])%list /\
    exchange ([] ++ pre')%list
      (futures_get_order "BTCUSDT" (dict_get tp_order "orderId"))
      = Ok tp_status /\
    exchange ([] ++ pre' ++
         [futures_get_order "BTCUSDT" (dict_get tp_order "orderId")])%list
      (futures_get_order "BTCUSDT" (dict_get sl_order "orderId"))
      = Ok sl_status /\
    ((futures_cancel_order "BTCUSDT" (PInt 2)
        = futures_cancel_order "BTCUSDT" (dict_get sl_order "orderId") /\
      dict_get tp_status "status" = PStr "FILLED") \/
     (futures_cancel_order "BTCUSDT" (PInt 2)
        = futures_cancel_order "BTCUSDT" (dict_get tp_order "orderId") /\
      dict_get tp_status "status" <> PStr "FILLED" /\
      dict_get sl_status "status" = PStr "FILLED")).
Proof.
  exact (watcher_cancels_only_after_fill
    (fun _ _ => Ok (mkdict [("status", PStr "FILLED")])) "BTCUSDT"
    (mkdict [("orderId", PInt 1)]) (mkdict [("orderId", PInt 2)]) 5 []
    [futures_get_order "BTCUSDT" (PInt 1); futures_get_order "BTCUSDT" (PInt 2)]
    [] (futures_cancel_order "BTCUSDT" (PInt 2)) "BTCUSDT" (PInt 2)
    eq_refl eq_refl).
Defined.

(** When the bracket watcher returns, it has just seen the leg it reports
    FILLED (for the stop-loss leg: with the take-profit leg not FILLED),
    and its last call is the cancel of the other leg, which the gateway
    accepted. *)
Theorem watcher_returns_after_cancel (c : client) (symbol : string)
    (tp_order sl_order : dict) (polls : nat) (tr tr' : list call) (l : leg) :
  watcher c symbol tp_order sl_order polls tr = (Ok (Returned l), tr') ->
  exists pre tp_status sl_status ack,
    let get_tp := futures_get_order symbol (dict_get tp_order "orderId") in
    let get_sl := futures_get_order symbol (dict_get sl_order "orderId") in
    let cancel_other :=
      futures_cancel_order symbol
        (dict_get (match l with TP => sl_order | SL => tp_order end)
           "orderId") in
    tr' = (tr ++ pre ++ [get_tp; get_sl; cancel_other])%list /\
    c (tr ++ pre)%list get_tp = Ok tp_status /\
    c (tr ++ pre ++ [get_tp])%list get_sl = Ok sl_status /\
    match l with
    | TP => dict_get tp_status "status" = PStr "FILLED"
    | SL => dict_get tp_status "status" <> PStr "FILLED" /\
            dict_get sl_status "status" = PStr "FILLED"
    end /\
    c (tr ++ pre ++ [get_tp; get_sl])%list cancel_other = Ok ack.
Proof.
  intros Hw.
  destruct (watcher_is_run c symbol tp_order sl_order polls tr)
    as (w & calls & Heq & Hrun).
  rewrite Heq in Hw. injection Hw as -> <-.
  destruct (watcher_run_returned _ _ _ _ _ _ _ Hrun)
    as (pre & tps & sls & ack & -> & Htp & Hsl & Hl & Hack).
  exists pre, tps, sls, ack. simpl.
  repeat split; try assumption.
  destruct l.
  - apply is_str_eq. exact Hl.
  - destruct Hl as [Hnf Hf]. split; [|apply is_str_eq; exact Hf].
    intros Heq'. unfold filled in Hnf. rewrite Heq' in Hnf. discriminate.
Qed.

(** A watcher that returns on the stop-loss leg, at work. *)
Lemma watcher_returns_after_cancel_witness :
  let exchange : client := fun _ k =>
    match k with
    | futures_get_order _ (PInt 2) => Ok (mkdict [("status", PStr "FILLED")])
    | _ => Ok (mkdict [("status", PStr "NEW")])
    end in
  exists pre tp_status sl_status ack,
    [futures_get_order "BTCUSDT" (PInt 1); futures_get_order "BTCUSDT" (PInt 2);
     futures_cancel_order "BTCUSDT" (PInt 1)]
      = ([] ++ pre ++
         [futures_get_order "BTCUSDT" (PInt 1);
          futures_get_order "BTCUSDT" (PInt 2);
          futures_cancel_order "BTCUSDT" (PInt 1)])%list /\
    exchange ([] ++ pre)%list (futures_get_order "BTCUSDT" (PInt 1))
      = Ok tp_status /\
    exchange ([] ++ pre ++ [futures_get_order "BTCUSDT" (PInt 1)])%list
      (futures_get_order "BTCUSDT" (PInt 2)) = Ok sl_status /\
    (dict_get tp_status "status" <> PStr "FILLED" /\
     dict_get sl_status "status" = PStr "FILLED") /\
    exchange ([] ++ pre ++ [futures_get_order "BTCUSDT" (PInt 1);
                            futures_get_order "BTCUSDT" (PInt 2)])%list
      (futures_cancel_order "BTCUSDT" (PInt 1)) = Ok ack.
Proof.
  exact (watcher_returns_after_cancel
    (fun _ k =>
       match k with
       | futures_get_order _ (PInt 2) => Ok (mkdict [("status", PStr "FILLED")])
       | _ => Ok (mkdict [("status", PStr "NEW")])
       end) "BTCUSDT"
    (mkdict [("orderId", PInt 1)]) (mkdict [("orderId", PInt 2)]) 3 []
    [futures_get_order "BTCUSDT" (PInt 1); futures_get_order "BTCUSDT" (PInt 2);
     futures_cancel_order "BTCUSDT" (PInt 1)] SL eq_refl).
Defined.

(** ** The runs of the stop-limit watcher *)

Section StopLimitRuns.

Variables (c : client) (symbol side : string).
Variables (qty stop_price limit_price : dec).

Let poll : call := futures_symbol_ticker symbol.
Let place : call := stop_limit_order symbol side qty limit_price.

Lemma stop_limit_poll_step (tr : list call) :
  exists r calls,
    stop_limit_poll c symbol side qty stop_price limit_price tr
      = (Ok r, (tr ++ calls)%list) /\
    stop_limit_step c symbol side qty stop_price limit_price tr r calls.
Proof.
  unfold stop_limit_poll, try_except, bind, invoke, lift, ret.
  fold poll place.
  destruct (c tr poll) as [ticker|e] eqn:Htick.
  2:{ eexists None, [_]. split; [reflexivity|].
      eapply ticker_raises. exact Htick. }
  destruct (decimal_of (dict_get ticker "price")) as [price|e] eqn:Hprice.
  2:{ eexists None, [_]. split; [reflexivity|].
      eapply price_unreadable; eassumption. }
  destruct (stop_hit side price stop_price) as [[|]|e] eqn:Hhit.
  - destruct (c (tr ++ [poll])%list place) as [order|e] eqn:Hplace;
      rewrite <- app_assoc; simpl.
    + eexists (Some order), [_; _]. split; [reflexivity|].
      eapply order_placed; eassumption.
    + eexists None, [_; _]. split; [reflexivity|].
      eapply placement_raises; eassumption.
  - eexists None, [_]. split; [reflexivity|].
    eapply stop_not_hit; eassumption.
  - eexists None, [_]. split; [reflexivity|].
    eapply comparison_raises; eassumption.
Qed.

Lemma stop_limit_is_run (polls : nat) : forall tr,
  exists w calls,
    stop_limit_loop c symbol side qty stop_price limit_price polls tr
      = (Ok w, (tr ++ calls)%list) /\
    stop_limit_run c symbol side qty stop_price limit_price tr w calls.
Proof.
  induction polls as [|polls IH]; intros tr; simpl.
  - exists Watching, []. rewrite app_nil_r. split; [reflexivity | constructor].
  - unfold bind at 1.
    destruct (stop_limit_poll_step tr) as (r & calls & -> & Hstep).
    destruct r as [order|].
    + exists (Returned order), calls. split; [reflexivity|].
      apply stop_limit_done. exact Hstep.
    + unfold time_sleep, bind, ret.
      destruct (IH (tr ++ calls)%list) as (w & rest & -> & Hrun).
      exists w, (calls ++ rest)%list. rewrite <- app_assoc.
      split; [reflexivity|]. eapply stop_limit_more; eassumption.
Qed.

(** Why the order may be placed at the trace [tr ++ [poll]]. *)
Let triggered (tr : list call) : Prop :=
  exists ticker price,
    c tr poll = Ok ticker /\
    decimal_of (dict_get ticker "price") = Ok price /\
    stop_hit side price stop_price = Ok true.

Lemma stop_limit_step_order (tr : list call) (r : option dict)
    (calls pre mid : list call) (k : call) (kw : kwargs) :
  stop_limit_step c symbol side qty stop_price limit_price tr r calls ->
  calls = (pre ++ k :: mid)%list ->
  k = futures_create_order kw ->
  pre = [poll] /\ mid = [] /\ k = place /\ triggered tr.
Proof.
  intros Hstep Hcalls Hk.
  assert (Hpoll : k <> poll) by (rewrite Hk; discriminate).
  destruct Hstep;
    destruct pre as [|a [|b pre]]; simpl in Hcalls;
    try (injection Hcalls as Ha; try (exfalso; apply Hpoll; symmetry; exact Ha));
    try discriminate;
    try (destruct pre; discriminate).
  all: subst; repeat split; try reflexivity;
    try (destruct mid; [reflexivity | discriminate]);
    try (eexists _, _; repeat split; eassumption).
Qed.

Lemma stop_limit_run_order (tr : list call) (w : watch dict)
    (calls : list call) :
  stop_limit_run c symbol side qty stop_price limit_price tr w calls ->
  forall pre k rest kw,
    calls = (pre ++ k :: rest)%list ->
    k = futures_create_order kw ->
    exists pre',
      pre = (pre' ++ [poll])%list /\ k = place /\ triggered (tr ++ pre')%list.
Proof.
  induction 1 as [tr | tr order calls Hstep | tr calls w rest0 Hstep Hrun IH];
    intros pre k rest kw Hcalls Hk.
  - destruct pre; discriminate.
  - destruct (stop_limit_step_order _ _ _ _ _ _ _ Hstep Hcalls Hk)
      as (-> & _ & Hp & Ht).
    exists []. rewrite app_nil_r. repeat split; assumption.
  - destruct (app_eq_split _ _ _ _ _ Hcalls)
      as [(pre' & -> & Hrest)|(mid & Hin & _)].
    + destruct (IH _ _ _ _ Hrest Hk) as (pre'' & -> & Hp & Ht).
      exists (calls ++ pre'')%list. rewrite <- !app_assoc in *.
      repeat split; assumption.
    + destruct (stop_limit_step_order _ _ _ _ _ _ _ Hstep Hin Hk)
        as (-> & _ & Hp & Ht).
      exists []. rewrite app_nil_r. repeat split; assumption.
Qed.


Lemma stop_limit_run_returned (tr : list call) (order : dict)
    (calls : list call) :
  stop_limit_run c symbol side qty stop_price limit_price tr
    (Returned order) calls ->
  exists pre,
    calls = (pre ++ [poll; place])%list /\
    triggered (tr ++ pre)%list /\
    c (tr ++ pre ++ [poll])%list place = Ok order.
Proof.
  intros Hrun. remember (Returned order) as w eqn:Hw.
  induction Hrun as [tr | tr o calls Hstep | tr calls w rest Hstep Hrun IH].
  - discriminate.
  - injection Hw as ->.
    inversion Hstep as [| | | |ticker price o Htick Hprice Hhit Hplace|]; subst.
    exists []. simpl. rewrite !app_nil_r.
    split; [reflexivity|]. split; [|exact Hplace].
    exists ticker, price. repeat split; assumption.
  - destruct (IH Hw) as (pre & -> & Ht & Hplace).
    exists (calls ++ pre)%list. rewrite <- !app_assoc in *.
    repeat split; assumption.
Qed.

End StopLimitRuns.

Lemma stop_hit_true (side : string) (price : decimal) (stop_price : dec) :
  stop_hit side price stop_price = Ok true ->
  (side = "BUY" /\ ge_ext price (DFin stop_price) = Ok true) \/
  (side = "SELL" /\ le_ext price (DFin stop_price) = Ok true).
Proof.
  unfold stop_hit, res_bind.
  destruct (String.eqb_spec side "BUY") as [->|Hb].
  - destruct (ge_ext price (DFin stop_price)) as [[|]|e]; simpl;
      try discriminate; intros _; left; split; reflexivity.
  - destruct (String.eqb_spec side "SELL") as [->|Hs]; [|discriminate].
    intros H. right. split; [reflexivity | exact H].
Qed.

Lemma stop_limit_live_loop (c : client) (symbol side : string)
    (qty stop_price limit_price : dec) (poll_interval : N) (polls : nat) :
  stop_limit_watch_and_place (Some c) symbol side qty stop_price limit_price
    false poll_interval polls
  = stop_limit_loop c symbol side qty stop_price limit_price polls.
Proof. reflexivity. Qed.


(** The stop-limit watcher places an order only on a trigger: every
    placement comes right after a ticker query of the same turn that was
    answered with a price meeting the stop condition (not below the stop
    for a BUY, not above it for a SELL). *)
Theorem stop_limit_places_only_on_trigger (c : client) (symbol side : string)
    (qty stop_price limit_price : dec) (poll_interval : N) (polls : nat)
    (tr pre rest : list call) (k : call) (kw : kwargs) :
  snd (stop_limit_watch_and_place (Some c) symbol side qty stop_price
         limit_price false poll_interval polls tr)
    = (tr ++ pre ++ k :: rest)%list ->
  k = futures_create_order kw ->
  exists pre' ticker price,
    pre = (pre' ++ [futures_symbol_ticker symbol])%list /\
    c (tr ++ pre')%list (futures_symbol_ticker symbol) = Ok ticker /\
    decimal_of (dict_get ticker "price") = Ok price /\
    ((side = "BUY" /\ ge_ext price (DFin stop_price) = Ok true) \/
     (side = "SELL" /\ le_ext price (DFin stop_price) = Ok true)).
Proof.
  rewrite stop_limit_live_loop. intros Htrace Hk.
  destruct (stop_limit_is_run c symbol side qty stop_price limit_price polls tr)
    as (w & calls & Heq & Hrun).
  rewrite Heq in Htrace. simpl in Htrace. apply app_inv_head in Htrace.
  destruct (stop_limit_run_order _ _ _ _ _ _ _ _ _ Hrun _ _ _ _ Htrace Hk)
    as (pre' & -> & _ & ticker & price & Htick & Hprice & Hhit).
  exists pre', ticker, price.
  repeat split; try assumption. apply stop_hit_true. exact Hhit.
Qed.

(** A placement on a trigger, at work. *)
Lemma stop_limit_places_only_on_trigger_witness :
  let exchange : client := fun _ k =>
    match k with
    | futures_symbol_ticker _ => Ok (mkdict [("price", PStr "63999.5")])
    | _ => Ok (mkdict [("orderId", PInt 7)])
    end in
  exists pre' ticker price,
    [futures_symbol_ticker "BTCUSDT"]
      = (pre' ++ [futures_symbol_ticker "BTCUSDT"])%list /\
    exchange ([] ++ pre')%list (futures_symbol_ticker "BTCUSDT") = Ok ticker /\
    decimal_of (dict_get ticker "price") = Ok price /\
    (("SELL" = "BUY" /\ ge_ext price (DFin (mkDec false 64000 0)) = Ok true) \/
     ("SELL" = "SELL" /\ le_ext price (DFin (mkDec false 64000 0)) = Ok true)).
Proof.
  exact (stop_limit_places_only_on_trigger
    (fun _ k =>
       match k with
       | futures_symbol_ticker _ => Ok (mkdict [("price", PStr "63999.5")])
       | _ => Ok (mkdict [("orderId", PInt 7)])
       end)
    "BTCUSDT" "SELL" (mkDec false 1 (-3)) (mkDec false 64000 0)
    (mkDec false 63900 0) 2 3 [] [futures_symbol_ticker "BTCUSDT"] []
    (stop_limit_order "BTCUSDT" "SELL" (mkDec false 1 (-3))
       (mkDec false 63900 0))
    _ eq_refl eq_refl).
Defined.

(** When the stop-limit watcher returns an order, its last two calls are a
    ticker query answered with a price that meets the stop condition and
    the placement of the LIMIT order, and the order returned is the
    gateway's answer to that placement. *)
Theorem stop_limit_returns_placed_order (c : client) (symbol side : string)
    (qty stop_price limit_price : dec) (poll_interval : N) (polls : nat)
    (tr tr' : list call) (order : dict) :
  stop_limit_watch_and_place (Some c) symbol side qty stop_price limit_price
    false poll_interval polls tr = (Ok (Returned order), tr') ->
  exists pre ticker price,
    let poll := futures_symbol_ticker symbol in
    let place := stop_limit_order symbol side qty limit_price in
    tr' = (tr ++ pre ++ [poll; place])%list /\
    c (tr ++ pre)%list poll = Ok ticker /\
    decimal_of (dict_get ticker "price") = Ok price /\
    ((side = "BUY" /\ ge_ext price (DFin stop_price) = Ok true) \/
     (side = "SELL" /\ le_ext price (DFin stop_price) = Ok true)) /\
    c (tr ++ pre ++ [poll])%list place = Ok order.
Proof.
  rewrite stop_limit_live_loop. intros Hw.
  destruct (stop_limit_is_run c symbol side qty stop_price limit_price polls tr)
    as (w & calls & Heq & Hrun).
  rewrite Heq in Hw. injection Hw as -> <-.
  destruct (stop_limit_run_returned _ _ _ _ _ _ _ _ _ Hrun)
    as (pre & -> & (ticker & price & Htick & Hprice & Hhit) & Hplace).
  exists pre, ticker, price. simpl.
  repeat split; try assumption. apply stop_hit_true. exact Hhit.
Qed.

(** A returned order, at work. *)
Lemma stop_limit_returns_placed_order_witness :
  let exchange : client := fun _ k =>
    match k with
    | futures_symbol_ticker _ => Ok (mkdict [("price", PStr "65000")])
    | _ => Ok (mkdict [("orderId", PInt 7)])
    end in
  exists pre ticker price,
    let poll := futures_symbol_ticker "BTCUSDT" in
    let place :=
      stop_limit_order "BTCUSDT" "BUY" (mkDec false 1 (-3))
        (mkDec false 64900 0) in
    [poll; place] = ([] ++ pre ++ [poll; place])%list /\
    exchange ([] ++ pre)%list poll = Ok ticker /\
    decimal_of (dict_get ticker "price") = Ok price /\
    (("BUY" = "BUY" /\ ge_ext price (DFin (mkDec false 64000 0)) = Ok true) \/
     ("BUY" = "SELL" /\ le_ext price (DFin (mkDec false 64000 0)) = Ok true)) /\
    exchange ([] ++ pre ++ [poll])%list place = Ok (mkdict [("orderId", PInt 7)]).
Proof.
  exact (stop_limit_returns_placed_order
    (fun _ k =>
       match k with
       | futures_symbol_ticker _ => Ok (mkdict [("price", PStr "65000")])
       | _ => Ok (mkdict [("orderId", PInt 7)])
       end)
    "BTCUSDT" "BUY" (mkDec false 1 (-3)) (mkDec false 64000 0)
    (mkDec false 64900 0) 2 3 []
    [futures_symbol_ticker "BTCUSDT";
     stop_limit_order "BTCUSDT" "BUY" (mkDec false 1 (-3))
       (mkDec false 64900 0)]
    (mkdict [("orderId", PInt 7)]) eq_refl).
Defined.

(** With a side that is neither "BUY" nor "SELL" (a side in lower case,
    say) the stop-limit watcher never fires: whatever the prices, it only
    queries the ticker, once per turn, and goes on watching. *)
Theorem stop_limit_unknown_side_never_fires (c : client)
    (symbol side : string) (qty stop_price limit_price : dec)
    (poll_interval : N) (polls : nat) (tr : list call) :
  side <> "BUY" -> side <> "SELL" ->
  stop_limit_watch_and_place (Some c) symbol side qty stop_price limit_price
    false poll_interval polls tr
  = (Ok Watching, (tr ++ repeat (futures_symbol_ticker symbol) polls)%list).
Proof.
  intros Hb Hs. rewrite stop_limit_live_loop.
  revert tr. induction polls as [|polls IH]; intros tr; simpl.
  - unfold ret. rewrite app_nil_r. reflexivity.
  - unfold bind at 1.
    assert (Hpoll : stop_limit_poll c symbol side qty stop_price limit_price tr
                    = (Ok None, (tr ++ [futures_symbol_ticker symbol])%list)).
    { unfold stop_limit_poll, try_except, bind, invoke, lift, ret.
      destruct (c tr (futures_symbol_ticker symbol)) as [ticker|e];
        [|reflexivity].
      destruct (decimal_of (dict_get ticker "price")) as [price|e];
        [|reflexivity].
      unfold stop_hit, res_bind.
      destruct (String.eqb_spec side "BUY"); [contradiction|].
      destruct (String.eqb_spec side "SELL"); [contradiction|].
      reflexivity. }
    rewrite Hpoll. unfold time_sleep, bind, ret. rewrite IH.
    rewrite <- app_assoc. reflexivity.
Qed.

(** A side in lower case, at work. *)
Lemma stop_limit_unknown_side_never_fires_witness :
  let exchange : client := fun _ _ => Ok (mkdict [("price", PStr "1")]) in
  stop_limit_watch_and_place (Some exchange) "BTCUSDT" "sell"
    (mkDec false 1 (-3)) (mkDec false 64000 0) (mkDec false 63900 0)
    false 2 3 []
  = (Ok Watching,
     ([] ++ repeat (futures_symbol_ticker "BTCUSDT") 3)%list).
Proof.
  exact (stop_limit_unknown_side_never_fires
    (fun _ _ => Ok (mkdict [("price", PStr "1")])) "BTCUSDT" "sell"
    (mkDec false 1 (-3)) (mkDec false 64000 0) (mkDec false 63900 0) 2 3 []
    ltac:(discriminate) ltac:(discriminate)).
Defined.

(** ** The bracket watcher up to the first fill *)

Section WatcherFirstFill.

Variables (c : client) (symbol : string) (tp_order sl_order : dict).

Let get_tp : call := get_of symbol tp_order.
Let get_sl : call := get_of symbol sl_order.

Lemma watcher_poll_quiet (tr : list call) (tp_status sl_status : dict) :
  c tr get_tp = Ok tp_status ->
  c (tr ++ [get_tp])%list get_sl = Ok sl_status ->
  filled tp_status = false -> filled sl_status = false ->
  watcher_poll c symbol tp_order sl_order tr
  = (Ok None, (tr ++ [get_tp; get_sl])%list).
Proof.
  intros Htp Hsl Hft Hfs. unfold get_tp, get_sl, get_of, filled in *.
  unfold watcher_poll, try_except, bind, invoke, ret.
  rewrite Htp, Hsl, Hft, Hfs. rewrite <- app_assoc. reflexivity.
Qed.

Lemma watcher_poll_fill (tr : list call) (tp_status sl_status ack : dict)
    (l : leg) :
  let other := match l with TP => sl_order | SL => tp_order end in
  c tr get_tp = Ok tp_status ->
  c (tr ++ [get_tp])%list get_sl = Ok sl_status ->
  match l with
  | TP => filled tp_status = true
  | SL => filled tp_status = false /\ filled sl_status = true
  end ->
  c (tr ++ [get_tp; get_sl])%list (cancel_of symbol other) = Ok ack ->
  watcher_poll c symbol tp_order sl_order tr
  = (Ok (Some l), (tr ++ [get_tp; get_sl; cancel_of symbol other])%list).
Proof.
  intros other Htp Hsl Hl Hack.
  unfold other, get_tp, get_sl, get_of, cancel_of, filled in *.
  unfold watcher_poll, try_except, bind, invoke, ret.
  rewrite Htp, Hsl. rewrite <- !app_assoc. simpl.
  destruct l; [rewrite Hl | destruct Hl as [-> ->]];
    rewrite Hack, <- app_assoc; reflexivity.
Qed.

Lemma watcher_first_fill (k : nat) :
  forall (polls : nat) (tr : list call) (tp_status sl_status : nat -> dict)
         (ack : dict) (l : leg),
    let other := match l with TP => sl_order | SL => tp_order end in
    let turns := quiet_turns symbol tp_order sl_order in
    (forall j, (j <= k)%nat ->
       c (tr ++ turns j)%list get_tp = Ok (tp_status j)) ->
    (forall j, (j <= k)%nat ->
       c (tr ++ turns j ++ [get_tp])%list get_sl = Ok (sl_status j)) ->
    (forall j, (j < k)%nat ->
       filled (tp_status j) = false /\ filled (sl_status j) = false) ->
    match l with
    | TP => filled (tp_status k) = true
    | SL => filled (tp_status k) = false /\ filled (sl_status k) = true
    end ->
    c (tr ++ turns k ++ [get_tp; get_sl])%list (cancel_of symbol other)
      = Ok ack ->
    (k < polls)%nat ->
    watcher c symbol tp_order sl_order polls tr
    = (Ok (Returned l),
       (tr ++ turns k ++ [get_tp; get_sl; cancel_of symbol other])%list).
Proof.
  induction k as [|k IH];
    intros polls tr tps sls ack l other turns Htp Hsl Hquiet Hl Hack Hpolls;
    (destruct polls as [|polls]; [lia|]); simpl watcher; unfold bind at 1.
  - pose proof (Htp O (Nat.le_refl _)) as Htp0.
    pose proof (Hsl O (Nat.le_refl _)) as Hsl0.
    simpl in Htp0, Hsl0, Hack. rewrite app_nil_r in Htp0.
    rewrite (watcher_poll_fill tr (tps O) (sls O) ack l) by assumption.
    reflexivity.
  - pose proof (Htp O ltac:(lia)) as Htp0.
    pose proof (Hsl O ltac:(lia)) as Hsl0.
    simpl in Htp0, Hsl0. rewrite app_nil_r in Htp0.
    destruct (Hquiet O ltac:(lia)) as [Hft Hfs].
    rewrite (watcher_poll_quiet tr (tps O) (sls O)) by assumption.
    unfold time_sleep, bind, ret.
    rewrite (IH polls (tr ++ [get_tp; get_sl])%list
               (fun j => tps (S j)) (fun j => sls (S j)) ack l).
    + unfold turns. simpl. rewrite <- !app_assoc. reflexivity.
    + intros j Hj. rewrite <- app_assoc. apply (Htp (S j)). lia.
    + intros j Hj. rewrite <- app_assoc. apply (Hsl (S j)). lia.
    + intros j Hj. apply (Hquiet (S j)). lia.
    + exact Hl.
    + rewrite <- app_assoc. exact Hack.
    + lia.
Qed.

End WatcherFirstFill.

(** The bracket watcher ends at the first fill it sees, whichever turn and
    whichever leg: after [k] turns in which both legs are reported not
    FILLED, a turn that reports the take-profit leg FILLED, or the
    stop-loss leg alone, is followed by the cancel of the other leg, and
    once the gateway accepts it the watcher has returned: its calls are the
    [2 * (k + 1)] queries and that one cancel. *)
Theorem watcher_ends_at_first_fill (c : client) (symbol : string)
    (tp_order sl_order : dict) (tr : list call)
    (tp_status sl_status : nat -> dict) (ack : dict) (l : leg)
    (k polls : nat) :
  let get_tp := futures_get_order symbol (dict_get tp_order "orderId") in
  let get_sl := futures_get_order symbol (dict_get sl_order "orderId") in
  let cancel_other :=
    futures_cancel_order symbol
      (dict_get (match l with TP => sl_order | SL => tp_order end) "orderId") in
  let turns := quiet_turns symbol tp_order sl_order in
  (forall j, (j <= k)%nat ->
     c (tr ++ turns j)%list get_tp = Ok (tp_status j)) ->
  (forall j, (j <= k)%nat ->
     c (tr ++ turns j ++ [get_tp])%list get_sl = Ok (sl_status j)) ->
  (forall j, (j < k)%nat ->
     filled (tp_status j) = false /\ filled (sl_status j) = false) ->
  match l with
  | TP => filled (tp_status k) = true
  | SL => filled (tp_status k) = false /\ filled (sl_status k) = true
  end ->
  c (tr ++ turns k ++ [get_tp; get_sl])%list cancel_other = Ok ack ->
  (k < polls)%nat ->
  watcher c symbol tp_order sl_order polls tr
  = (Ok (Returned l), (tr ++ turns k ++ [get_tp; get_sl; cancel_other])%list) /\
  length (turns k ++ [get_tp; get_sl; cancel_other])%list = (2 * (k + 1) + 1)%nat.
Proof.
  intros get_tp get_sl cancel_other turns Htp Hsl Hquiet Hl Hack Hpolls.
  split.
  - exact (watcher_first_fill c symbol tp_order sl_order k polls tr
             tp_status sl_status ack l Htp Hsl Hquiet Hl Hack Hpolls).
  - assert (Hturns : forall j,
              length (quiet_turns symbol tp_order sl_order j) = (2 * j)%nat).
    { induction j as [|j IHj]; simpl; [reflexivity|]. rewrite IHj. lia. }
    unfold turns. rewrite length_app, Hturns. simpl. lia.
Qed.

(** A stop-loss fill at the third turn, at work. *)
Lemma watcher_ends_at_first_fill_witness :
  let exchange : client := fun tr k =>
    match k with
    | futures_get_order _ (PInt 2) =>
        if (4 <=? length tr)%nat then Ok (mkdict [("status", PStr "FILLED")])
        else Ok (mkdict [("status", PStr "NEW")])
    | _ => Ok (mkdict [("status", PStr "NEW")])
    end in
  watcher exchange "BTCUSDT" (mkdict [("orderId", PInt 1)])
    (mkdict [("orderId", PInt 2)]) 5 []
  = (Ok (Returned SL),
     [futures_get_order "BTCUSDT" (PInt 1); futures_get_order "BTCUSDT" (PInt 2);
      futures_get_order "BTCUSDT" (PInt 1); futures_get_order "BTCUSDT" (PInt 2);
      futures_get_order "BTCUSDT" (PInt 1); futures_get_order "BTCUSDT" (PInt 2);
      futures_cancel_order "BTCUSDT" (PInt 1)]).
Proof.
  intros exchange.
  refine (proj1 (watcher_ends_at_first_fill exchange "BTCUSDT"
    (mkdict [("orderId", PInt 1)]) (mkdict [("orderId", PInt 2)]) []
    (fun _ => mkdict [("status", PStr "NEW")])
    (fun j => if (2 <=? j)%nat then mkdict [("status", PStr "FILLED")]
              else mkdict [("status", PStr "NEW")])
    (mkdict [("status", PStr "NEW")]) SL 2 5 _ _ _ _ _ _)).
  - intros [|[|[|j]]] Hj; [reflexivity | reflexivity | reflexivity | lia].
  - intros [|[|[|j]]] Hj; [reflexivity | reflexivity | reflexivity | lia].
  - intros [|[|j]] Hj; [split; reflexivity | split; reflexivity | lia].
  - split; reflexivity.
  - reflexivity.
  - lia.
Defined.

(** ** Signs and sizes of decimal results *)

Lemma round_digits_nonneg (rnd : rounding) (n k : Z) :
  0 <= n -> 0 <= round_digits rnd n k.
Proof.
  intros Hn. pose proof (round_digits_lower rnd n k) as Hlow.
  assert (0 <= n / 10 ^ k); [|lia].
  destruct (Z.le_gt_cases 0 k) as [Hk|Hk].
  - apply Z.div_pos; [exact Hn | apply Z.pow_pos_nonneg; lia].
  - rewrite Z.pow_neg_r by lia. rewrite Z.div_0_r. lia.
Qed.

Lemma fix_sign (prec : Z) (rnd : rounding) (d : dec) :
  dsign (fix_ prec rnd d) = dsign d.
Proof.
  unfold fix_. destruct (is_zero d); [reflexivity|].
  destruct (ndigits (dint d) <=? prec); [reflexivity|].
  match goal with |- context [if ?b then _ else _] => destruct b end;
    reflexivity.
Qed.

Lemma fix_nonneg (prec : Z) (rnd : rounding) (d : dec) :
  0 <= dint d -> 0 <= dint (fix_ prec rnd d).
Proof.
  intros Hn. unfold fix_. destruct (is_zero d); [exact Hn|].
  destruct (ndigits (dint d) <=? prec); [exact Hn|].
  pose proof (round_digits_nonneg rnd (dint d) (ndigits (dint d) - prec) Hn).
  match goal with |- context [if ?b then _ else _] => destruct b end; simpl.
  - apply Z.div_pos; lia.
  - assumption.
Qed.

(** A coefficient below [10 ^ prec] has at most [prec] digits. *)
Lemma ndigits_small (prec n : Z) :
  0 < n -> n < 10 ^ prec -> ndigits n <= prec.
Proof.
  intros Hpos Hlt. destruct (ndigits_spec n Hpos) as (H1 & Hlo & _).
  destruct (Z.le_gt_cases (ndigits n) prec) as [|Hgt]; [assumption|].
  exfalso. assert (10 ^ prec <= 10 ^ (ndigits n - 1)); [|lia].
  apply Z.pow_le_mono_r; lia.
Qed.

Lemma ndigits_bound (prec n : Z) :
  0 < n -> ndigits n <= prec -> n < 10 ^ prec.
Proof.
  intros Hpos Hle. destruct (ndigits_spec n Hpos) as (H1 & _ & Hhi).
  eapply Z.lt_le_trans; [exact Hhi|]. apply Z.pow_le_mono_r; lia.
Qed.

(** Nothing is rounded when the coefficient fits the precision. *)
Lemma fix_small (prec : Z) (rnd : rounding) (d : dec) :
  0 <= dint d -> dint d < 10 ^ prec -> fix_ prec rnd d = d.
Proof.
  intros Hn Hlt. unfold fix_, is_zero.
  destruct (Z.eqb_spec (dint d) 0); [reflexivity|].
  pose proof (ndigits_small prec (dint d) ltac:(lia) Hlt) as Hfit.
  apply Z.leb_le in Hfit. rewrite Hfit. reflexivity.
Qed.

Lemma rescale_sign (rnd : rounding) (d : dec) (e : Z) :
  dsign (rescale rnd d e) = dsign d.
Proof.
  unfold rescale. destruct (is_zero d); [reflexivity|].
  destruct (e <=? dexp d); reflexivity.
Qed.

Lemma rescale_nonneg (rnd : rounding) (d : dec) (e : Z) :
  0 <= dint d -> 0 <= dint (rescale rnd d e).
Proof.
  intros Hn. unfold rescale. destruct (is_zero d); simpl; [lia|].
  destruct (e <=? dexp d); simpl.
  - apply Z.mul_nonneg_nonneg; [exact Hn | apply Z.pow_nonneg; lia].
  - apply round_digits_nonneg. exact Hn.
Qed.

(** What [quantize] returns: the rescaled number, which fits the precision. *)
Lemma quantize_result (prec : Z) (rnd : rounding) (d p : dec) (e : Z) :
  0 < prec -> 0 <= dint d ->
  quantize prec rnd d e = Ok p ->
  dexp p = e /\ dsign p = dsign d /\ 0 <= dint p < 10 ^ prec.
Proof.
  intros Hprec Hn Hq. split; [exact (quantize_exp _ _ _ _ _ Hq)|].
  unfold quantize in Hq. destruct (is_zero d) eqn:Hz.
  - injection Hq as <-. simpl. split; [reflexivity|].
    split; [lia | apply Z.pow_pos_nonneg; lia].
  - destruct (prec <? adjusted d - e + 1); [discriminate|].
    destruct (Z.ltb_spec prec (ndigits (dint (rescale rnd d e))))
      as [|Hfit]; [discriminate|].
    injection Hq as <-.
    pose proof (rescale_nonneg rnd d e Hn) as Hrn.
    assert (Hlt : dint (rescale rnd d e) < 10 ^ prec).
    { destruct (Z.eq_dec (dint (rescale rnd d e)) 0) as [->|Hne];
        [apply Z.pow_pos_nonneg; lia|].
      apply ndigits_bound; [lia | exact Hfit]. }
    rewrite (fix_small _ _ _ Hrn Hlt).
    split; [apply rescale_sign | split; assumption].
Qed.

Lemma strip_to_ideal_nonneg (fuel : nat) : forall coeff e ideal,
  0 <= coeff -> 0 <= fst (strip_to_ideal fuel coeff e ideal).
Proof.
  induction fuel as [|fuel IH]; intros coeff e ideal Hn; simpl; [exact Hn|].
  destruct ((e <? ideal) && (coeff mod 10 =? 0)); [|exact Hn].
  apply IH. apply Z.div_pos; lia.
Qed.

Lemma div_result (prec : Z) (a b q : dec) :
  0 <= dint a -> 0 <= dint b ->
  div prec a b = Ok q ->
  dsign q = xorb (dsign a) (dsign b) /\ 0 <= dint q.
Proof.
  intros Ha Hb. unfold div.
  destruct (is_zero b); [destruct (is_zero a); discriminate|].
  destruct (is_zero a).
  - intros [= <-]. rewrite fix_sign. split; [reflexivity|].
    apply fix_nonneg. simpl. lia.
  - set (shift := ndigits (dint b) - ndigits (dint a) + prec + 1).
    set (num := if 0 <=? shift then dint a * 10 ^ shift else dint a).
    set (den := if 0 <=? shift then dint b else dint b * 10 ^ (- shift)).
    assert (Hnum : 0 <= num).
    { unfold num. destruct (0 <=? shift); [|exact Ha].
      apply Z.mul_nonneg_nonneg; [exact Ha | apply Z.pow_nonneg; lia]. }
    assert (Hden : 0 <= den).
    { unfold den. destruct (0 <=? shift); [exact Hb|].
      apply Z.mul_nonneg_nonneg; [exact Hb | apply Z.pow_nonneg; lia]. }
    assert (Hquot : 0 <= num / den).
    { destruct (Z.eq_dec den 0) as [->|Hne]; [rewrite Z.div_0_r; lia|].
      apply Z.div_pos; lia. }
    destruct (num mod den =? 0).
    + pose proof (strip_to_ideal_nonneg (Z.to_nat (ndigits (num / den)))
                    (num / den) (dexp a - dexp b - shift) (dexp a - dexp b)
                    Hquot) as Hstrip.
      destruct (strip_to_ideal _ _ _ _) as [coeff' e']. simpl in Hstrip.
      intros [= <-]. rewrite fix_sign. split; [reflexivity|].
      apply fix_nonneg. exact Hstrip.
    + intros [= <-]. rewrite fix_sign. split; [reflexivity|].
      apply fix_nonneg. simpl. destruct (num / den mod 5 =? 0); lia.
Qed.

(** ** The quantities of the slices *)

Lemma twap_qty_per_shape (total_qty : dec) (chunks : Z) (qty_per : dec) :
  dsign total_qty = false -> 0 <= dint total_qty -> 1 <= chunks ->
  twap_qty_per total_qty chunks = Ok qty_per ->
  dexp qty_per = -8 /\ dsign qty_per = false /\ 0 <= dint qty_per < 10 ^ 12.
Proof.
  intros Hs Hn Hc. unfold twap_qty_per, res_bind.
  destruct (div twap_prec total_qty (of_int chunks)) as [share|e] eqn:Hdiv;
    [|discriminate].
  intros Hq.
  assert (Hd : 0 <= dint (of_int chunks)) by (unfold of_int; cbn [dint]; lia).
  destruct (div_result _ _ _ _ Hn Hd Hdiv) as [Hsign Hnn].
  destruct (quantize_result twap_prec _ _ _ _ eq_refl Hnn Hq)
    as (He & Hs' & Hb).
  split; [exact He|]. split; [|exact Hb].
  rewrite Hs', Hsign, Hs. simpl.
  destruct (Z.ltb_spec chunks 0); [lia | reflexivity].
Qed.

(** Adding [Decimal("0")] to a share gives the share back. *)
Lemma add_zero_share (q : dec) :
  dexp q = -8 -> dsign q = false -> 0 <= dint q < 10 ^ 12 ->
  add twap_prec q (mkDec false 0 0) = q.
Proof.
  destruct q as [s i e]. simpl. intros -> -> Hb.
  unfold add, signed_at. simpl dsign. simpl dint. simpl dexp.
  change (Z.min (-8) 0) with (-8). change (-8 - -8) with 0.
  change (0 - -8) with 8. rewrite Z.pow_0_r.
  replace (1 * (i * 1) + 1 * (0 * 10 ^ 8)) with i by lia.
  replace (if i =? 0 then false && false else i <? 0) with false
    by (destruct (Z.eqb_spec i 0); [reflexivity|];
        destruct (Z.ltb_spec i 0); [lia | reflexivity]).
  rewrite Z.abs_eq by lia.
  apply fix_small; unfold twap_prec; cbn [dint]; lia.
Qed.

Lemma map_seqZ_const {A} (f : Z -> A) (a : A) (n : nat) : forall m,
  (forall i, m <= i < m + Z.of_nat n -> f i = a) ->
  map f (seqZ m (Z.of_nat n)) = repeat a n.
Proof.
  induction n as [|n IH]; intros m Hf; [reflexivity|].
  rewrite seqZ_cons by lia. simpl. rewrite (Hf m) by lia. f_equal.
  replace (Z.pred (Z.of_nat (S n))) with (Z.of_nat n) by lia.
  apply IH. intros i Hi. apply Hf. lia.
Qed.

(** The loop of the slicer runs over the chunks before the last, then the
    last. *)
Lemma twap_quantities_split (total_qty : dec) (chunks : Z) (qty_per : dec) :
  1 <= chunks ->
  twap_qty_per total_qty chunks = Ok qty_per ->
  let remainder := twap_remainder total_qty qty_per chunks in
  twap_quantities total_qty chunks
  = Ok (map (twap_execute_qty qty_per remainder chunks) (seqZ 0 (chunks - 1)) ++
        [add twap_prec qty_per remainder])%list.
Proof.
  intros Hc Hq remainder.
  assert (Hr : range chunks = (seqZ 0 (chunks - 1) ++ [chunks - 1])%list).
  { unfold range. replace chunks with ((chunks - 1) + 1) at 1 by lia.
    rewrite seqZ_app by lia. reflexivity. }
  unfold twap_quantities. rewrite Hq. simpl. f_equal.
  rewrite Hr, map_app. f_equal. simpl. unfold twap_execute_qty.
  rewrite Z.eqb_refl. reflexivity.
Qed.

Lemma twap_slices_before_last (qty_per remainder : dec) (chunks : Z) :
  1 <= chunks ->
  dexp qty_per = -8 -> dsign qty_per = false -> 0 <= dint qty_per < 10 ^ 12 ->
  map (twap_execute_qty qty_per remainder chunks) (seqZ 0 (chunks - 1))
  = repeat qty_per (Z.to_nat (chunks - 1)).
Proof.
  intros Hc He Hs Hb.
  rewrite <- (Z2Nat.id (chunks - 1)) at 1 by lia.
  apply map_seqZ_const. intros i Hi. unfold twap_execute_qty.
  destruct (Z.eqb_spec i (chunks - 1)); [lia|].
  apply add_zero_share; assumption.
Qed.

(** The slices of a total that is not negative: all but the last are the
    share itself, which has exactly 8 decimals and at most 12 digits; the
    last is the share plus the remainder. *)
Theorem twap_slices_equal_but_last (total_qty : dec) (chunks : Z)
    (qty_per : dec) :
  dsign total_qty = false -> 0 <= dint total_qty -> 1 <= chunks ->
  twap_qty_per total_qty chunks = Ok qty_per ->
  twap_quantities total_qty chunks
  = Ok (repeat qty_per (Z.to_nat (chunks - 1)) ++
        [add twap_prec qty_per
           (sub twap_prec total_qty
              (mul twap_prec qty_per (of_int chunks)))])%list /\
  dexp qty_per = -8 /\ dsign qty_per = false /\ 0 <= dint qty_per < 10 ^ 12.
Proof.
  intros Hs Hn Hc Hq.
  destruct (twap_qty_per_shape _ _ _ Hs Hn Hc Hq) as (He & Hsq & Hb).
  split; [|repeat split; assumption || apply Hb].
  rewrite (twap_quantities_split _ _ _ Hc Hq).
  rewrite twap_slices_before_last by assumption.
  reflexivity.
Qed.

(** Ten in three slices, at work. *)
Lemma twap_slices_equal_but_last_witness :
  twap_quantities (mkDec false 10 0) 3
  = Ok (repeat (mkDec false 333333333 (-8)) (Z.to_nat (3 - 1)) ++
        [add twap_prec (mkDec false 333333333 (-8))
           (sub twap_prec (mkDec false 10 0)
              (mul twap_prec (mkDec false 333333333 (-8)) (of_int 3)))])%list.
Proof.
  exact (proj1 (twap_slices_equal_but_last (mkDec false 10 0) 3
                  (mkDec false 333333333 (-8)) eq_refl
                  ltac:(vm_compute; discriminate) ltac:(vm_compute; discriminate)
                  eq_refl)).
Defined.

(** ** When the slices add up to the total *)

(** The signed coefficient of a decimal at the exponent -8: its value in
    units of [1e-8]. *)
Local Abbreviation units d := (signed_at d (-8)).

Lemma units_mk (sign : bool) (s : Z) :
  sign = (if s =? 0 then sign else s <? 0) ->
  units (mkDec sign (Z.abs s) (-8)) = s.
Proof.
  intros Hsign. unfold signed_at. cbn [dsign dint dexp].
  replace (-8 - -8) with 0 by lia. rewrite Z.pow_0_r.
  destruct (Z.eqb_spec s 0) as [Hz|Hne].
  - rewrite Hz. destruct sign; reflexivity.
  - rewrite Hsign. destruct (Z.ltb_spec s 0); lia.
Qed.

(** An addition whose operands have at most 8 decimals, one of them
    exactly 8, and whose sum fits 12 digits is exact. *)
Lemma add_units (a b : dec) :
  -8 <= dexp a -> dexp b = -8 ->
  Z.abs (units a + units b) < 10 ^ 12 ->
  dexp (add twap_prec a b) = -8 /\
  units (add twap_prec a b) = units a + units b.
Proof.
  intros Ha Hb Hfit. unfold add.
  replace (Z.min (dexp a) (dexp b)) with (-8) by lia.
  set (s := units a + units b) in *.
  rewrite fix_small by (unfold twap_prec; cbn [dint]; lia).
  split; [reflexivity|]. apply units_mk.
  destruct (s =? 0); reflexivity.
Qed.

Lemma add_exact_units (a b : dec) :
  -8 <= dexp a -> dexp b = -8 ->
  dexp (add_exact a b) = -8 /\
  units (add_exact a b) = units a + units b.
Proof.
  intros Ha Hb. unfold add_exact.
  replace (Z.min (dexp a) (dexp b)) with (-8) by lia.
  split; [reflexivity|]. apply units_mk.
  destruct (_ =? 0); reflexivity.
Qed.

Lemma fold_add_exact_units (l : list dec) : forall acc,
  -8 <= dexp acc -> Forall (fun d => dexp d = -8) l ->
  -8 <= dexp (fold_left add_exact l acc) /\
  units (fold_left add_exact l acc)
  = units acc + fold_right Z.add 0 (map (fun d => units d) l).
Proof.
  induction l as [|d l IH]; intros acc Hacc Hl; simpl.
  - split; [exact Hacc | lia].
  - inversion Hl as [|? ? Hd Hl']; subst.
    destruct (add_exact_units acc d Hacc Hd) as [He Hu].
    destruct (IH (add_exact acc d) ltac:(lia) Hl') as [He' Hu'].
    split; [exact He'|]. rewrite Hu', Hu. lia.
Qed.

Lemma sum_repeat_units (q : dec) (n : nat) :
  fold_right Z.add 0 (map (fun d => units d) (repeat q n))
  = Z.of_nat n * units q.
Proof. induction n as [|n IH]; simpl repeat; simpl map; simpl fold_right; lia. Qed.

Lemma units_share (q : dec) :
  dexp q = -8 -> dsign q = false -> units q = dint q.
Proof.
  destruct q as [s i e]. simpl. intros -> ->. unfold signed_at. simpl.
  lia.
Qed.

Lemma units_total (t : dec) :
  dsign t = false -> units t = dint t * 10 ^ (dexp t + 8).
Proof.
  intros Hs. unfold signed_at. rewrite Hs.
  replace (dexp t - -8) with (dexp t + 8) by lia. lia.
Qed.

Lemma units_neg (d : dec) : units (neg d) = - units d.
Proof. apply signed_at_neg. Qed.

(** The order of two decimals with at most 8 decimals, one of them with
    exactly 8, is the order of their values in units of [1e-8]. *)
Lemma eqv_units (a b : dec) :
  dexp a = -8 -> -8 <= dexp b -> units a = units b -> eqv a b = true.
Proof.
  intros Ha Hb Hu. unfold eqv, cmp.
  replace (Z.min (dexp a) (dexp b)) with (-8) by lia.
  rewrite Hu, Z.compare_refl. reflexivity.
Qed.

(** For a total that is not negative, has at most 8 decimals and is below
    10000, cut into shares whose product with the number of chunks stays
    below 10000: no operation of the slicer rounds, and the quantities of
    the chunks, one per chunk, add up to the total exactly. *)
Theorem twap_total_preserved (total_qty : dec) (chunks : Z) (qty_per : dec) :
  dsign total_qty = false -> 0 <= dint total_qty ->
  -8 <= dexp total_qty ->
  dint total_qty * 10 ^ (dexp total_qty + 8) < 10 ^ 12 ->
  1 <= chunks ->
  twap_qty_per total_qty chunks = Ok qty_per ->
  dint qty_per * chunks < 10 ^ 12 ->
  exists qs,
    twap_quantities total_qty chunks = Ok qs /\
    length qs = Z.to_nat chunks /\
    eqv (sum_exact qs) total_qty = true.
Proof.
  intros Hs Hn He Hlt Hc Hq Hprod.
  destruct (twap_qty_per_shape _ _ _ Hs Hn Hc Hq) as (Heq & Hsq & Hb).
  pose proof (twap_quantities_split _ _ _ Hc Hq) as Hqs. simpl in Hqs.
  rewrite twap_slices_before_last in Hqs by assumption.
  unfold twap_remainder in Hqs.
  pose proof (units_share _ Heq Hsq) as Huq.
  pose proof (units_total _ Hs) as Hut.
  assert (Hnn : 0 <= units total_qty).
  { rewrite Hut. apply Z.mul_nonneg_nonneg; [exact Hn|].
    apply Z.pow_nonneg. lia. }
  (* the product *)
  assert (Hmul : mul twap_prec qty_per (of_int chunks)
                 = mkDec false (dint qty_per * chunks) (-8)).
  { unfold mul, of_int. cbn [dsign dint dexp]. rewrite Hsq, Heq.
    destruct (Z.ltb_spec chunks 0); [lia|]. rewrite Z.abs_eq by lia.
    apply fix_small; unfold twap_prec; cbn [dint]; nia. }
  rewrite Hmul in Hqs.
  set (product := mkDec false (dint qty_per * chunks) (-8)) in *.
  assert (Hup : units product = dint qty_per * chunks)
    by (unfold product, signed_at; simpl; lia).
  (* the remainder *)
  set (remainder := sub twap_prec total_qty product) in *.
  assert (Hr : dexp remainder = -8 /\
               units remainder = units total_qty - dint qty_per * chunks).
  { unfold remainder, sub.
    destruct (add_units total_qty (neg product) He eq_refl) as [Her Hur].
    - rewrite units_neg, Hup. nia.
    - split; [exact Her|]. rewrite Hur, units_neg, Hup. lia. }
  destruct Hr as [Her Hur].
  (* the last chunk *)
  set (last := add twap_prec qty_per remainder) in *.
  assert (Hl : dexp last = -8 /\ units last = dint qty_per + units remainder).
  { unfold last.
    destruct (add_units qty_per remainder ltac:(lia) Her) as [Hel Hul].
    - rewrite Hur, Huq. nia.
    - split; [exact Hel|]. rewrite Hul, Huq. reflexivity. }
  destruct Hl as [Hel Hul].
  exists (repeat qty_per (Z.to_nat (chunks - 1)) ++ [last])%list.
  split; [exact Hqs|].
  split; [rewrite length_app, repeat_length; simpl; lia|].
  (* the sum *)
  assert (Hall : Forall (fun d => dexp d = -8)
                   (repeat qty_per (Z.to_nat (chunks - 1)))).
  { apply Forall_forall. intros d Hd.
    apply list_elem_of_In, repeat_spec in Hd. subst d. exact Heq. }
  unfold sum_exact. rewrite fold_left_app. simpl fold_left.
  destruct (fold_add_exact_units (repeat qty_per (Z.to_nat (chunks - 1)))
              (mkDec false 0 0) ltac:(simpl; lia) Hall) as [Hes Hus].
  destruct (add_exact_units _ last Hes Hel) as [Het Hust].
  apply eqv_units; [exact Het | exact He |].
  rewrite Hust, Hus, sum_repeat_units, Huq, Hul, Hur.
  unfold signed_at at 1. simpl. rewrite Z2Nat.id by lia. lia.
Qed.

(** Ten in three slices, at work. *)
Lemma twap_total_preserved_witness :
  exists qs,
    twap_quantities (mkDec false 10 0) 3 = Ok qs /\
    length qs = Z.to_nat 3 /\
    eqv (sum_exact qs) (mkDec false 10 0) = true.
Proof.
  exact (twap_total_preserved (mkDec false 10 0) 3
           (mkDec false 333333333 (-8)) eq_refl
           ltac:(vm_compute; discriminate) ltac:(vm_compute; discriminate)
           eq_refl ltac:(vm_compute; discriminate) eq_refl eq_refl).
Defined.

(** ** Edges of the slicer *)

(** [run_twap] called with a chunk count that is not positive places no
    order: with zero chunks the division raises, with a negative count the
    loop is empty and the result is the empty list (or the quantization
    raises); in no case is a [ValueError] raised. *)
Theorem run_twap_without_chunks (cl : option client) (symbol side : string)
    (total_qty : dec) (chunks : Z) (duration_s : N) (dry_run : bool)
    (tr : list call) :
  chunks <= 0 ->
  snd (run_twap cl symbol side total_qty chunks duration_s dry_run tr) = tr /\
  (chunks = 0 ->
   fst (run_twap cl symbol side total_qty chunks duration_s dry_run tr)
   = Raise (if is_zero total_qty then InvalidOperation else DivisionByZero)) /\
  (chunks < 0 ->
   fst (run_twap cl symbol side total_qty chunks duration_s dry_run tr) = Ok [] \/
   fst (run_twap cl symbol side total_qty chunks duration_s dry_run tr)
   = Raise InvalidOperation).
Proof.
  intros Hc. unfold run_twap, bind, lift.
  destruct (twap_qty_per total_qty chunks) as [q|e] eqn:Hq; simpl.
  - rewrite range_nonpos by exact Hc. simpl. split; [reflexivity|].
    split; [|intros _; left; reflexivity].
    intros ->. exfalso. unfold twap_qty_per, div in Hq. simpl in Hq.
    destruct (is_zero total_qty); discriminate.
  - split; [reflexivity|]. split.
    + intros ->. unfold twap_qty_per, div in Hq. simpl in Hq.
      destruct (is_zero total_qty); injection Hq as <-; reflexivity.
    + intros Hneg. right. f_equal.
      unfold twap_qty_per, res_bind in Hq.
      destruct (div_ok twap_prec total_qty (of_int chunks)) as [share Hs].
      { unfold is_zero, of_int. simpl. apply Z.eqb_neq. lia. }
      rewrite Hs in Hq. unfold quantize in Hq.
      destruct (is_zero share); [discriminate|].
      destruct (twap_prec <? adjusted share - -8 + 1);
        [injection Hq as <-; reflexivity|].
      destruct (twap_prec <? ndigits (dint (rescale ROUND_DOWN share (-8))));
        [injection Hq as <-; reflexivity | discriminate].
Qed.

(** A negative chunk count, at work. *)
Lemma run_twap_without_chunks_witness :
  snd (run_twap None "BTCUSDT" "BUY" (mkDec false 1 0) (-2) 0 false []) = [].
Proof.
  exact (proj1 (run_twap_without_chunks None "BTCUSDT" "BUY" (mkDec false 1 0)
                  (-2) 0 false [] ltac:(vm_compute; discriminate))).
Defined.

(** A share of 10000 or more, at work: 20000 in two chunks. *)
Lemma run_twap_large_share_raises_witness :
  run_twap None "BTCUSDT" "BUY" (mkDec false 20000 0) 2 0 true []
  = (Raise InvalidOperation, []).
Proof.
  exact (run_twap_large_share_raises None "BTCUSDT" "BUY"
           (mkDec false 20000 0) 2 0 true [] (mkDec false 10000 0)
           eq_refl eq_refl ltac:(vm_compute; discriminate)).
Defined.

(** ** Dry runs as previews *)

(** A dry run shows what a live run sends.  For the slicer: the record of
    chunk [i] carries [str] of the quantity whose [float] the [i]-th order
    of a live run carries.  For the grid builder: the record of a level
    carries the very price string, and [str] of the quantity whose [float]
    the order of that level carries. *)
Theorem dry_run_previews_live (c : client) (symbol side : string)
    (total_qty : dec) (chunks : Z) (duration_s : N)
    (low high : dec) (steps : Z) (qty_per_order : dec) (tr : list call)
    (qs prices : list dec) :
  twap_quantities total_qty chunks = Ok qs ->
  geb low high = false ->
  grid_prices low high steps = Ok prices ->
  fst (run_twap (Some c) symbol side total_qty chunks duration_s true tr)
    = Ok (zip_with
            (fun i q => mkdict [("chunk", PInt (i + 1));
                                ("status", PStr "DRY_RUN");
                                ("qty", PStr (to_str q))])
            (range chunks) qs) /\
  snd (run_twap (Some c) symbol side total_qty chunks duration_s false tr)
    = (tr ++ map (fun q =>
              futures_create_order
                (mkkwargs [("symbol", AStr symbol); ("side", AStr side);
                           ("type", AStr "MARKET"); ("quantity", AFloat q)]))
            qs)%list /\
  fst (create_grid (Some c) symbol low high steps qty_per_order true tr)
    = Ok (map (fun p => mkdict [("price", PStr (to_str p));
                                ("qty", PStr (to_str qty_per_order));
                                ("status", PStr "DRY_RUN")]) prices) /\
  snd (create_grid (Some c) symbol low high steps qty_per_order false tr)
    = (tr ++ map (fun p =>
              futures_create_order
                (mkkwargs [("symbol", AStr symbol); ("side", AStr "BUY");
                           ("type", AStr "LIMIT"); ("timeInForce", AStr "GTC");
                           ("quantity", AFloat qty_per_order);
                           ("price", AStr (to_str p))]))
            prices)%list.
Proof.
  intros Hqs Hlt Hps. repeat split.
  - rewrite run_twap_dry by reflexivity. rewrite Hqs. reflexivity.
  - rewrite (run_twap_live c symbol side total_qty chunks duration_s tr qs Hqs).
    reflexivity.
  - rewrite (create_grid_dry (Some c) true symbol low high steps qty_per_order
               tr prices) by (reflexivity || assumption).
    reflexivity.
  - rewrite (create_grid_live c symbol low high steps qty_per_order tr prices)
      by assumption.
    reflexivity.
Qed.

(** A preview, at work: ten in three chunks, a grid of two steps. *)
Lemma dry_run_previews_live_witness :
  fst (run_twap (Some (fun _ _ => Raise (GatewayError "down"))) "BTCUSDT"
         "BUY" (mkDec false 10 0) 3 0 true [])
  = Ok (zip_with
          (fun i q => mkdict [("chunk", PInt (i + 1));
                              ("status", PStr "DRY_RUN");
                              ("qty", PStr (to_str q))])
          (range 3)
          [mkDec false 333333333 (-8); mkDec false 333333333 (-8);
           mkDec false 333333334 (-8)]).
Proof.
  exact (proj1 (dry_run_previews_live (fun _ _ => Raise (GatewayError "down"))
    "BTCUSDT" "BUY" (mkDec false 10 0) 3 0
    (mkDec false 60000 0) (mkDec false 70000 0) 2 (mkDec false 5 (-4)) []
    [mkDec false 333333333 (-8); mkDec false 333333333 (-8);
     mkDec false 333333334 (-8)]
    [mkDec false 6000000 (-2); mkDec false 6500000 (-2);
     mkDec false 7000000 (-2)]
    ltac:(vm_compute; reflexivity) ltac:(vm_compute; reflexivity)
    ltac:(vm_compute; reflexivity))).
Defined.

(** ** Credentials and live orders *)

Lemma create_client_some (connect : string -> string -> client)
    (API_KEY API_SECRET : option string) (c : client) :
  create_client connect API_KEY API_SECRET = Some c <->
  exists key secret,
    API_KEY = Some key /\ API_SECRET = Some secret /\
    key <> "" /\ secret <> "" /\ c = connect key secret.
Proof.
  unfold create_client. split.
  - destruct API_KEY as [key|]; [|discriminate].
    destruct API_SECRET as [secret|]; [|discriminate].
    destruct (String.eqb_spec key ""); [discriminate|].
    destruct (String.eqb_spec secret ""); [discriminate|].
    intros [= <-]. exists key, secret. repeat split; assumption.
  - intros (key & secret & -> & -> & Hk & Hs & ->).
    destruct (String.eqb_spec key ""); [contradiction|].
    destruct (String.eqb_spec secret ""); [contradiction|]. reflexivity.
Qed.

Lemma app_one_neq {A} (l : list A) (a : A) : (l ++ [a])%list <> l.
Proof.
  intros H. apply (f_equal (@length A)) in H.
  rewrite length_app in H. simpl in H. lia.
Qed.

(** A market or limit order reaches the exchange exactly when the dry-run
    flag is off and both credentials are set and not empty; it is then one
    call, to the client made from these credentials. *)
Theorem orders_need_credentials (connect : string -> string -> client)
    (API_KEY API_SECRET : option string) (dry_run : bool)
    (symbol side : string) (qty price : dec) (time_in_force : string)
    (tr : list call) :
  let cl := create_client connect API_KEY API_SECRET in
  let sends := fun (m : M dict) => snd (m tr) <> tr in
  let armed :=
    dry_run = false /\
    exists key secret,
      API_KEY = Some key /\ API_SECRET = Some secret /\
      key <> "" /\ secret <> "" in
  (sends (place_market_order cl symbol side qty dry_run) <-> armed) /\
  (sends (place_limit_order cl symbol side qty price time_in_force dry_run)
   <-> armed) /\
  (armed ->
   exists key secret order,
     API_KEY = Some key /\ API_SECRET = Some secret /\
     place_market_order cl symbol side qty dry_run tr
     = (connect key secret tr order, (tr ++ [order])%list)).
Proof.
  intros cl sends armed.
  assert (Hlive : forall c, live cl dry_run = Some c ->
            armed /\ exists key secret,
              API_KEY = Some key /\ API_SECRET = Some secret /\
              c = connect key secret).
  { intros c Hc. unfold live in Hc.
    destruct dry_run; [discriminate|].
    apply create_client_some in Hc
      as (key & secret & Hk & Hs & Hkn & Hsn & ->).
    split; [split; [reflexivity|]|]; exists key, secret;
      repeat split; assumption. }
  assert (Hdry : live cl dry_run = None -> ~ armed).
  { intros Hn (-> & key & secret & -> & -> & Hk & Hs).
    unfold live, cl in Hn.
    assert (Hsome : create_client connect (Some key) (Some secret)
                    = Some (connect key secret)).
    { apply create_client_some. exists key, secret.
      repeat split; assumption. }
    rewrite Hsome in Hn. discriminate. }
  unfold sends, place_market_order, place_limit_order.
  destruct (live cl dry_run) as [c|] eqn:Hl.
  - destruct (Hlive c eq_refl) as (Harmed & key & secret & Hk & Hs & ->).
    unfold invoke. simpl.
    split; [split; [intros _; exact Harmed | intros _; apply app_one_neq]|].
    split; [split; [intros _; exact Harmed | intros _; apply app_one_neq]|].
    intros _. exists key, secret. eexists. repeat split; eassumption.
  - specialize (Hdry eq_refl). unfold ret. simpl.
    split; [split; [intros H; contradiction | intros H; contradiction]|].
    split; [split; [intros H; contradiction | intros H; contradiction]|].
    intros H. contradiction.
Qed.

(** ** The logger *)

Lemma get_logger_lookup (name : string) (registry : loggers) :
  snd (get_logger name registry) !! name = Some (fst (get_logger name registry)) /\
  l_handlers (fst (get_logger name registry)) <> [].
Proof.
  unfold get_logger, getLogger.
  destruct (registry !! name) as [l|] eqn:Hl; simpl.
  - destruct (l_handlers l) eqn:Hh; simpl.
    + rewrite lookup_insert_eq. split; [reflexivity | discriminate].
    + split; [exact Hl | rewrite Hh; discriminate].
  - rewrite lookup_insert_eq. split; [reflexivity | discriminate].
Qed.

(** [get_logger] sets a logger up once: a second call returns the same
    logger and leaves every logger as it was, so that handlers are never
    added twice; the logger it returns has handlers, and the loggers of
    other names are not touched. *)
Theorem get_logger_idempotent (name : string) (registry : loggers) :
  let first := get_logger name registry in
  get_logger name (snd first) = first /\
  l_handlers (fst first) <> [] /\
  (forall other, other <> name -> snd first !! other = registry !! other).
Proof.
  intros first.
  destruct (get_logger_lookup name registry) as [Hlook Hh]. fold first in Hlook, Hh.
  split; [|split; [exact Hh|]].
  - unfold get_logger at 1, getLogger. rewrite Hlook.
    destruct (l_handlers (fst first)) eqn:Hhs; [contradiction|].
    destruct first; reflexivity.
  - intros other Hne. unfold first, get_logger, getLogger.
    destruct (registry !! name) as [l|] eqn:Hl; simpl.
    + destruct (l_handlers l); simpl; [|reflexivity].
      rewrite lookup_insert_ne by congruence. reflexivity.
    + rewrite lookup_insert_ne by congruence.
      rewrite lookup_insert_ne by congruence. reflexivity.
Qed.

(** However often [get_logger] is called for a name that had no handlers,
    the logger ends up at level DEBUG with exactly two handlers: the
    rotating file (5 000 000 bytes, 3 backups) at DEBUG and the console at
    INFO, with one format. *)
Theorem get_logger_two_handlers (name : string) (registry : loggers)
    (calls : nat) :
  (forall l, registry !! name = Some l -> l_handlers l = []) ->
  let fmt := "%(asctime)s | %(levelname)s | %(name)s | %(message)s" in
  Nat.iter (S calls) (fun r => snd (get_logger name r)) registry !! name
  = Some (mkLogger 10
            [mkHandler (RotatingFileHandler "bot.log" 5000000 3) 10 fmt;
             mkHandler StreamHandler_stdout 20 fmt]).
Proof.
  intros Hfresh fmt. induction calls as [|calls IH].
  - simpl. unfold get_logger, getLogger.
    destruct (registry !! name) as [l|] eqn:Hl; simpl.
    + rewrite (Hfresh l eq_refl). simpl. rewrite lookup_insert_eq. reflexivity.
    + rewrite lookup_insert_eq. reflexivity.
  - change (Nat.iter (S (S calls)) (fun r => snd (get_logger name r)) registry)
      with (snd (get_logger name
                   (Nat.iter (S calls) (fun r => snd (get_logger name r))
                      registry))).
    set (r := Nat.iter (S calls) (fun r => snd (get_logger name r)) registry)
      in *.
    unfold get_logger, getLogger. rewrite IH. simpl. exact IH.
Qed.

(** A first use, at work. *)
Lemma get_logger_two_handlers_witness :
  let fmt := "%(asctime)s | %(levelname)s | %(name)s | %(message)s" in
  Nat.iter 3 (fun r => snd (get_logger "twap" r)) (∅ : loggers) !! "twap"
  = Some (mkLogger 10
            [mkHandler (RotatingFileHandler "bot.log" 5000000 3) 10 fmt;
             mkHandler StreamHandler_stdout 20 fmt]).
Proof.
  exact (get_logger_two_handlers "twap" ∅ 2
           (fun l (H : (∅ : loggers) !! "twap" = Some l) =>
              match eq_ind None (fun o => match o with
                                          | None => True
                                          | Some _ => False
                                          end) I (Some l) H
              return l_handlers l = [] with end)).
Defined.

(** ** Retrying for ever *)

(** The bracket watcher has no bound on its retries: on a gateway that
    reports the take-profit leg FILLED and refuses every cancel, it issues
    one more cancel of the stop-loss leg at every turn and never returns. *)
Theorem watcher_retries_for_ever (c : client) (symbol : string)
    (tp_order sl_order : dict) (polls : nat) (tr : list call) :
  (forall h, exists status,
     c h (futures_get_order symbol (dict_get tp_order "orderId")) = Ok status /\
     dict_get status "status" = PStr "FILLED") ->
  (forall h, exists status,
     c h (futures_get_order symbol (dict_get sl_order "orderId")) = Ok status) ->
  (forall h, exists e,
     c h (futures_cancel_order symbol (dict_get sl_order "orderId")) = Raise e) ->
  watcher c symbol tp_order sl_order polls tr
  = (Ok Watching, (tr ++ cancel_turns symbol tp_order sl_order polls)%list) /\
  length (List.filter (fun k => match k with
                           | futures_cancel_order _ _ => true
                           | _ => false
                           end)
            (cancel_turns symbol tp_order sl_order polls)) = polls.
Proof.
  intros Htp Hsl Hcancel. split.
  - revert tr. induction polls as [|polls IH]; intros tr; simpl.
    + unfold ret. rewrite app_nil_r. reflexivity.
    + unfold bind at 1.
      destruct (Htp tr) as (tps & Htps & Hf).
      destruct (Hsl (tr ++ [get_of symbol tp_order])%list) as (sls & Hsls).
      destruct (Hcancel (tr ++ [get_of symbol tp_order;
                                get_of symbol sl_order])%list) as (e & He).
      rewrite (watcher_poll_tp_filled c symbol tp_order sl_order tr tps sls
                 Htps Hsls) by (rewrite Hf; reflexivity).
      unfold get_of in He. rewrite He.
      unfold time_sleep, bind, ret. rewrite IH.
      rewrite <- app_assoc. reflexivity.
  - induction polls as [|polls IH]; simpl; [reflexivity|].
    rewrite IH. reflexivity.
Qed.

(** A gateway that refuses every cancel, at work. *)
Lemma watcher_retries_for_ever_witness :
  let exchange : client := fun _ k =>
    match k with
    | futures_cancel_order _ _ => Raise (GatewayError "timeout")
    | _ => Ok (mkdict [("status", PStr "FILLED")])
    end in
  watcher exchange "BTCUSDT" (mkdict [("orderId", PInt 1)])
    (mkdict [("orderId", PInt 2)]) 3 []
  = (Ok Watching,
     ([] ++ cancel_turns "BTCUSDT" (mkdict [("orderId", PInt 1)])
              (mkdict [("orderId", PInt 2)]) 3)%list).
Proof.
  exact (proj1 (watcher_retries_for_ever
    (fun _ k =>
       match k with
       | futures_cancel_order _ _ => Raise (GatewayError "timeout")
       | _ => Ok (mkdict [("status", PStr "FILLED")])
       end)
    "BTCUSDT" (mkdict [("orderId", PInt 1)]) (mkdict [("orderId", PInt 2)]) 3 []
    (fun _ => ex_intro _ (mkdict [("status", PStr "FILLED")])
                (conj eq_refl eq_refl))
    (fun _ => ex_intro _ (mkdict [("status", PStr "FILLED")]) eq_refl)
    (fun _ => ex_intro _ (GatewayError "timeout") eq_refl))).
Defined.

(** The stop-limit watcher has no bound on its retries either: while the
    polled price meets the stop condition and the gateway refuses the
    order, it places the order again at every turn and never returns. *)
Theorem stop_limit_retries_for_ever (c : client) (symbol side : string)
    (qty stop_price limit_price : dec) (poll_interval : N) (polls : nat)
    (tr : list call) :
  (forall h, exists ticker price,
     c h (futures_symbol_ticker symbol) = Ok ticker /\
     decimal_of (dict_get ticker "price") = Ok price /\
     stop_hit side price stop_price = Ok true) ->
  (forall h, exists e,
     c h (stop_limit_order symbol side qty limit_price) = Raise e) ->
  stop_limit_watch_and_place (Some c) symbol side qty stop_price limit_price
    false poll_interval polls tr
  = (Ok Watching,
     (tr ++ placing_turns (futures_symbol_ticker symbol)
              (stop_limit_order symbol side qty limit_price) polls)%list).
Proof.
  intros Htick Hplace. rewrite stop_limit_live_loop.
  revert tr. induction polls as [|polls IH]; intros tr; simpl.
  - unfold ret. rewrite app_nil_r. reflexivity.
  - unfold bind at 1.
    destruct (Htick tr) as (ticker & price & Ht & Hp & Hhit).
    destruct (Hplace (tr ++ [futures_symbol_ticker symbol])%list) as (e & He).
    unfold stop_limit_poll, try_except, time_sleep, bind, invoke, lift, ret.
    rewrite Ht, Hp, Hhit, He. rewrite IH. rewrite <- !app_assoc. reflexivity.
Qed.

(** A gateway that refuses every order, at work. *)
Lemma stop_limit_retries_for_ever_witness :
  let exchange : client := fun _ k =>
    match k with
    | futures_symbol_ticker _ => Ok (mkdict [("price", PStr "63999.5")])
    | _ => Raise (GatewayError "rejected")
    end in
  stop_limit_watch_and_place (Some exchange) "BTCUSDT" "SELL"
    (mkDec false 1 (-3)) (mkDec false 64000 0) (mkDec false 63900 0)
    false 2 3 []
  = (Ok Watching,
     ([] ++ placing_turns (futures_symbol_ticker "BTCUSDT")
              (stop_limit_order "BTCUSDT" "SELL" (mkDec false 1 (-3))
                 (mkDec false 63900 0)) 3)%list).
Proof.
  exact (stop_limit_retries_for_ever
    (fun _ k =>
       match k with
       | futures_symbol_ticker _ => Ok (mkdict [("price", PStr "63999.5")])
       | _ => Raise (GatewayError "rejected")
       end)
    "BTCUSDT" "SELL" (mkDec false 1 (-3)) (mkDec false 64000 0)
    (mkDec false 63900 0) 2 3 []
    (fun _ => ex_intro _ (mkdict [("price", PStr "63999.5")])
                (ex_intro _ (DFin (mkDec false 639995 (-1)))
                   (conj eq_refl (conj eq_refl eq_refl))))
    (fun _ => ex_intro _ (GatewayError "rejected") eq_refl)).
Defined.
